(** * MetronomiQ: the tempo model, the input validator and the start/stop
    toggle of [main.py], embedded as pure functions over an explicit
    window state.

    Python integers are unbounded, so they are [Z]; Python strings are
    [string]; a raised exception is a constructor of [result].  The Qt
    widgets the program talks to are records holding the properties the
    program reads back, with the documented behaviour of the setters the
    program calls. *)

From Stdlib Require Import ZArith List String Ascii Bool Lia Sorted.
Import ListNotations.

Local Open Scope string_scope.
Local Open Scope Z_scope.

(* ================================================================== *)
(** * Python builtins used by the program *)
(* ================================================================== *)

Module Py.

Inductive exn : Type :=
| ValueError
| IndexError
| ZeroDivisionError.

(** Outcome of running a piece of Python: a value, a raised exception, or
    [Diverge] when a loop was cut off by the fuel of its model. *)
Inductive result (A : Type) : Type :=
| Ok (a : A)
| Raise (e : exn)
| Diverge.

Arguments Ok {A} a.
Arguments Raise {A} e.
Arguments Diverge {A}.

Definition bind {A B : Type} (m : result A) (k : A -> result B) : result B :=
  match m with
  | Ok a => k a
  | Raise e => Raise e
  | Diverge => Diverge
  end.

(** ** [str(n)] for an [int] *)

Definition digit_char (d : Z) : ascii := ascii_of_nat (48 + Z.to_nat d).

(** Digits of [n >= 0], most significant first, pushed in front of [acc]. *)
Fixpoint str_digits (fuel : nat) (n : Z) (acc : string) : string :=
  match fuel with
  | O => acc
  | S fuel' =>
      let acc' := String (digit_char (n mod 10)) acc in
      if n <? 10 then acc' else str_digits fuel' (n / 10) acc'
  end.

(** [10 ^ digits_fuel n > n]: one round per decimal digit is enough. *)
Definition digits_fuel (n : Z) : nat := S (Z.to_nat (Z.log2 n)).

Definition str (n : Z) : string :=
  if n <? 0
  then String "-" (str_digits (digits_fuel (- n)) (- n) "")
  else str_digits (digits_fuel n) n "".

(** ** [int(s)] for a [str], base 10

    Surrounding white space is dropped, one sign is allowed, then decimal
    digits, where single underscores may separate digits.  The
    interpreter's configurable limit on the number of digits is not part
    of the model. *)

Definition is_space (c : ascii) : bool :=
  let n := nat_of_ascii c in
  ((9 <=? n)%nat && (n <=? 13)%nat) || (n =? 32)%nat.

Definition digit_val (c : ascii) : option Z :=
  let n := nat_of_ascii c in
  if ((48 <=? n)%nat && (n <=? 57)%nat)%bool
  then Some (Z.of_nat (n - 48))
  else None.

Fixpoint lstrip (s : string) : string :=
  match s with
  | EmptyString => EmptyString
  | String c s' => if is_space c then lstrip s' else s
  end.

Fixpoint rstrip (s : string) : string :=
  match s with
  | EmptyString => EmptyString
  | String c s' =>
      match rstrip s' with
      | EmptyString => if is_space c then EmptyString else String c EmptyString
      | r => String c r
      end
  end.

Definition strip (s : string) : string := rstrip (lstrip s).

(** [prev_digit] tells whether the character just read was a digit: the
    text may end, and an underscore may come, only after a digit. *)
Fixpoint int_digits (acc : Z) (prev_digit : bool) (s : string) : option Z :=
  match s with
  | EmptyString => if prev_digit then Some acc else None
  | String c s' =>
      match digit_val c with
      | Some d => int_digits (10 * acc + d) true s'
      | None =>
          if (c =? "_")%char && prev_digit
          then int_digits acc false s'
          else None
      end
  end.

Definition int_signed (s : string) : option Z :=
  match s with
  | EmptyString => None
  | String c s' =>
      if (c =? "-")%char then option_map Z.opp (int_digits 0 false s')
      else if (c =? "+")%char then int_digits 0 false s'
      else int_digits 0 false s
  end.

Definition int (s : string) : result Z :=
  match int_signed (strip s) with
  | Some n => Ok n
  | None => Raise ValueError
  end.

(** ** [a // b] *)

Definition floordiv (a b : Z) : result Z :=
  if b =? 0 then Raise ZeroDivisionError else Ok (a / b).

(** ** [a[i]] for a list: negative indices count from the end. *)

Definition getitem (a : list Z) (i : Z) : result Z :=
  let len := Z.of_nat (List.length a) in
  let j := if i <? 0 then i + len else i in
  if (0 <=? j) && (j <? len)
  then match nth_error a (Z.to_nat j) with
       | Some x => Ok x
       | None => Raise IndexError
       end
  else Raise IndexError.

(** ** [range(start, stop, step)] for a positive step *)

Fixpoint range_from (count : nat) (start step : Z) : list Z :=
  match count with
  | O => []
  | S count' => start :: range_from count' (start + step) step
  end.

Definition range (start stop step : Z) : list Z :=
  range_from (Z.to_nat ((stop - start + step - 1) / step)) start step.

(** ** [bisect.bisect_left(a, x)]

    <<
    lo, hi = 0, len(a)
    while lo < hi:
        mid = (lo + hi) // 2
        if a[mid] < x: lo = mid + 1
        else: hi = mid
    return lo
    >>
    Each round shrinks [hi - lo], so [hi - lo] rounds of fuel are enough. *)

Fixpoint bisect_loop (fuel : nat) (a : list Z) (x : Z) (lo hi : nat) : nat :=
  match fuel with
  | O => lo
  | S fuel' =>
      if (lo <? hi)%nat then
        let mid := ((lo + hi) / 2)%nat in
        if nth mid a 0 <? x
        then bisect_loop fuel' a x (mid + 1)%nat hi
        else bisect_loop fuel' a x lo mid
      else lo
  end.

Definition bisect_left (a : list Z) (x : Z) : nat :=
  bisect_loop (List.length a) a x 0%nat (List.length a).

End Py.

Import Py.

Notation "x <- m ;; k" := (Py.bind m (fun x => k))
  (at level 61, m at next level, right associativity).

(* ================================================================== *)
(** * The Qt widgets, as far as the program uses them *)
(* ================================================================== *)

Module Qt.

(** What [QLabel], [QLineEdit] and [QPushButton] share. *)
Record Widget : Type := mkWidget {
  text : string;
  enabled : bool;
  visible : bool
}.

Definition newWidget (s : string) : Widget := mkWidget s true true.
Definition setText (s : string) (w : Widget) : Widget :=
  mkWidget s (enabled w) (visible w).
Definition setEnabled (b : bool) (w : Widget) : Widget :=
  mkWidget (text w) b (visible w).
Definition setVisible (b : bool) (w : Widget) : Widget :=
  mkWidget (text w) (enabled w) b.

(** [QSlider]: [setValue] forces the value into [minimum .. maximum] and
    emits [valueChanged] only when the stored value changes; the second
    component of the result tells whether the signal is emitted. *)
Record QSlider : Type := mkSlider {
  minimum : Z;
  maximum : Z;
  value : Z;
  sliderEnabled : bool;
  sliderVisible : bool
}.

Definition bound (sl : QSlider) (v : Z) : Z :=
  Z.max (minimum sl) (Z.min (maximum sl) v).

Definition setValue (v : Z) (sl : QSlider) : QSlider * bool :=
  let v' := bound sl v in
  (mkSlider (minimum sl) (maximum sl) v' (sliderEnabled sl) (sliderVisible sl),
   negb (v' =? value sl)).

Definition setSliderEnabled (b : bool) (sl : QSlider) : QSlider :=
  mkSlider (minimum sl) (maximum sl) (value sl) b (sliderVisible sl).
Definition setSliderVisible (b : bool) (sl : QSlider) : QSlider :=
  mkSlider (minimum sl) (maximum sl) (value sl) (sliderEnabled sl) b.

(** A slider accepts user input only when it is shown and enabled. *)
Definition sliderInteractive (sl : QSlider) : bool :=
  sliderEnabled sl && sliderVisible sl.
Definition interactive (w : Widget) : bool := enabled w && visible w.

(** [QTimeLine]: [start] on a running time line only warns; [stop] on a
    stopped one does nothing. *)
Inductive TimeLineState : Type := NotRunning | Running.

Record QTimeLine : Type := mkTimeLine {
  duration : Z;
  loopCount : Z;
  updateInterval : Z;
  state : TimeLineState
}.

Definition newTimeLine (d : Z) : QTimeLine := mkTimeLine d 1 40 NotRunning.
Definition setLoopCount (n : Z) (t : QTimeLine) : QTimeLine :=
  mkTimeLine (duration t) n (updateInterval t) (state t).
Definition setUpdateInterval (i : Z) (t : QTimeLine) : QTimeLine :=
  mkTimeLine (duration t) (loopCount t) i (state t).
Definition start (t : QTimeLine) : QTimeLine :=
  mkTimeLine (duration t) (loopCount t) (updateInterval t) Running.
Definition stop (t : QTimeLine) : QTimeLine :=
  mkTimeLine (duration t) (loopCount t) (updateInterval t) NotRunning.

(** [QIntValidator(bottom, top)].  A text is acceptable when it denotes an
    integer of the range; the texts Python's [int] reads cover the ones Qt
    takes for integers. *)
Record QIntValidator : Type := mkValidator {
  bottom : Z;
  top : Z
}.

Definition hasAcceptableInput (v : QIntValidator) (s : string) : bool :=
  match int s with
  | Ok n => (bottom v <=? n) && (n <=? top v)
  | _ => false
  end.

End Qt.

Import Qt.

(* ================================================================== *)
(** * [class TempoValidator(QIntValidator)] *)
(* ================================================================== *)

Module TempoValidator.

(** The [while] loop of [fixup].  [fuel] bounds how many times its
    condition is evaluated; [count] is the number of times the body has
    replaced [s] so far.  The chained comparison reads [top] only after
    [b <= n] held, and the body reads it only when [n < b] fails. *)
Fixpoint fixup_loop (fuel : nat) (self : QIntValidator) (b : Z) (s : string)
  (count : nat) : result (string * nat) :=
  match fuel with
  | O => Diverge
  | S fuel' =>
      n <- int s ;;
      if (b <=? n) && (n <=? top self) then Ok (s, count)
      else fixup_loop fuel' self b
             (if n <? b then str b else str (top self)) (S count)
  end.

(** [fixup], returning the text together with the number of replacements
    its loop made. *)
Definition fixup_counted (fuel : nat) (self : QIntValidator) (s : string)
  : result (string * nat) :=
  let b := bottom self in
  let s := if (s =? "")%string then str b else s in
  fixup_loop fuel self b s 0.

Definition fixup (fuel : nat) (self : QIntValidator) (s : string)
  : result string :=
  r <- fixup_counted fuel self s ;; Ok (fst r).

End TempoValidator.

(* ================================================================== *)
(** * [class Metronome(QMainWindow)] *)
(* ================================================================== *)

Module Metronome.

Definition tempi : list Z :=
  (range 40 61 2 ++ range 63 73 3 ++ range 76 121 4 ++
   range 126 145 6 ++ range 152 209 8)%list.

Inductive Mode : Type := maelzel | precise.

Definition Mode_str (m : Mode) : string :=
  match m with
  | maelzel => "Maelzel's metronome"
  | precise => "Precise tempo"
  end.

Record t : Type := mk {
  current_tempo : Z;
  playing : bool;
  mode : Mode;
  timer : QTimeLine;
  tempo_indicator : Widget;
  traditional_marking : Widget;
  slider_min : Widget;
  slider : QSlider;
  slider_max : Widget;
  tempo_prompt : Widget;
  tempo_input : Widget;
  validator : QIntValidator;
  start_stop_button : Widget;
  mode_indicator : Widget
}.

Definition set_current_tempo (x : Z) (s : t) : t :=
  mk x (playing s) (mode s) (timer s) (tempo_indicator s)
     (traditional_marking s) (slider_min s) (slider s) (slider_max s)
     (tempo_prompt s) (tempo_input s) (validator s) (start_stop_button s)
     (mode_indicator s).
Definition set_playing (x : bool) (s : t) : t :=
  mk (current_tempo s) x (mode s) (timer s) (tempo_indicator s)
     (traditional_marking s) (slider_min s) (slider s) (slider_max s)
     (tempo_prompt s) (tempo_input s) (validator s) (start_stop_button s)
     (mode_indicator s).
Definition set_mode (x : Mode) (s : t) : t :=
  mk (current_tempo s) (playing s) x (timer s) (tempo_indicator s)
     (traditional_marking s) (slider_min s) (slider s) (slider_max s)
     (tempo_prompt s) (tempo_input s) (validator s) (start_stop_button s)
     (mode_indicator s).
Definition set_timer (x : QTimeLine) (s : t) : t :=
  mk (current_tempo s) (playing s) (mode s) x (tempo_indicator s)
     (traditional_marking s) (slider_min s) (slider s) (slider_max s)
     (tempo_prompt s) (tempo_input s) (validator s) (start_stop_button s)
     (mode_indicator s).
Definition set_tempo_indicator (x : Widget) (s : t) : t :=
  mk (current_tempo s) (playing s) (mode s) (timer s) x
     (traditional_marking s) (slider_min s) (slider s) (slider_max s)
     (tempo_prompt s) (tempo_input s) (validator s) (start_stop_button s)
     (mode_indicator s).
Definition set_traditional_marking (x : Widget) (s : t) : t :=
  mk (current_tempo s) (playing s) (mode s) (timer s) (tempo_indicator s)
     x (slider_min s) (slider s) (slider_max s)
     (tempo_prompt s) (tempo_input s) (validator s) (start_stop_button s)
     (mode_indicator s).
Definition set_slider_min (x : Widget) (s : t) : t :=
  mk (current_tempo s) (playing s) (mode s) (timer s) (tempo_indicator s)
     (traditional_marking s) x (slider s) (slider_max s)
     (tempo_prompt s) (tempo_input s) (validator s) (start_stop_button s)
     (mode_indicator s).
Definition set_slider (x : QSlider) (s : t) : t :=
  mk (current_tempo s) (playing s) (mode s) (timer s) (tempo_indicator s)
     (traditional_marking s) (slider_min s) x (slider_max s)
     (tempo_prompt s) (tempo_input s) (validator s) (start_stop_button s)
     (mode_indicator s).
Definition set_slider_max (x : Widget) (s : t) : t :=
  mk (current_tempo s) (playing s) (mode s) (timer s) (tempo_indicator s)
     (traditional_marking s) (slider_min s) (slider s) x
     (tempo_prompt s) (tempo_input s) (validator s) (start_stop_button s)
     (mode_indicator s).
Definition set_tempo_prompt (x : Widget) (s : t) : t :=
  mk (current_tempo s) (playing s) (mode s) (timer s) (tempo_indicator s)
     (traditional_marking s) (slider_min s) (slider s) (slider_max s)
     x (tempo_input s) (validator s) (start_stop_button s)
     (mode_indicator s).
Definition set_tempo_input (x : Widget) (s : t) : t :=
  mk (current_tempo s) (playing s) (mode s) (timer s) (tempo_indicator s)
     (traditional_marking s) (slider_min s) (slider s) (slider_max s)
     (tempo_prompt s) x (validator s) (start_stop_button s)
     (mode_indicator s).
Definition set_validator (x : QIntValidator) (s : t) : t :=
  mk (current_tempo s) (playing s) (mode s) (timer s) (tempo_indicator s)
     (traditional_marking s) (slider_min s) (slider s) (slider_max s)
     (tempo_prompt s) (tempo_input s) x (start_stop_button s)
     (mode_indicator s).
Definition set_start_stop_button (x : Widget) (s : t) : t :=
  mk (current_tempo s) (playing s) (mode s) (timer s) (tempo_indicator s)
     (traditional_marking s) (slider_min s) (slider s) (slider_max s)
     (tempo_prompt s) (tempo_input s) (validator s) x
     (mode_indicator s).
Definition set_mode_indicator (x : Widget) (s : t) : t :=
  mk (current_tempo s) (playing s) (mode s) (timer s) (tempo_indicator s)
     (traditional_marking s) (slider_min s) (slider s) (slider_max s)
     (tempo_prompt s) (tempo_input s) (validator s) (start_stop_button s)
     x.

(** ** [__get_marking] *)

Definition get_marking (self : t) : string :=
  if current_tempo self <=? 24 then "Larghissimo"
  else if current_tempo self <=? 40 then "Grave"
  else if current_tempo self <=? 60 then "Largo"
  else if current_tempo self <=? 66 then "Largetto"
  else if current_tempo self <=? 76 then "Adagio"
  else if current_tempo self <=? 108 then "Andante"
  else if current_tempo self <=? 120 then "Moderato"
  else if current_tempo self <=? 168 then "Allegro"
  else if current_tempo self <=? 200 then "Presto"
  else "Prestissimo".

(** ** [__update_tempo]

    [slider.valueChanged] is connected to [__update_tempo], so the
    [setValue] of the precise branch runs the slot again, inside the
    call, whenever it moves the slider; [fuel] bounds that nesting. *)

Fixpoint update_tempo (fuel : nat) (self : t) : result t :=
  match fuel with
  | O => Diverge
  | S fuel' =>
      self <-
        match mode self with
        | maelzel =>
            x <- getitem tempi (value (slider self)) ;;
            let self := set_current_tempo x self in
            Ok (set_tempo_input
                  (setText (str (current_tempo self)) (tempo_input self))
                  self)
        | precise =>
            let t := text (tempo_input self) in
            x <- (if (t =? "")%string then getitem tempi 0 else int t) ;;
            let self := set_current_tempo x self in
            let (sl, changed) :=
              setValue (Z.of_nat (bisect_left tempi (current_tempo self)))
                       (slider self) in
            let self := set_slider sl self in
            if changed then update_tempo fuel' self else Ok self
        end ;;
      let self :=
        set_tempo_indicator
          (setText (str (current_tempo self)) (tempo_indicator self)) self in
      Ok (set_traditional_marking
            (setText (get_marking self) (traditional_marking self)) self)
  end.

(** ** [__switch_mode] *)

Definition switch_mode (fuel : nat) (self : t) : result t :=
  let self :=
    match mode self with
    | maelzel =>
        let self := set_mode precise self in
        let self := set_tempo_input (setVisible true (tempo_input self)) self in
        let self := set_tempo_input (setEnabled true (tempo_input self)) self in
        let self := set_tempo_prompt (setVisible true (tempo_prompt self)) self in
        let self := set_slider (setSliderEnabled false (slider self)) self in
        let self := set_slider_min (setVisible false (slider_min self)) self in
        let self := set_slider (setSliderVisible false (slider self)) self in
        set_slider_max (setVisible false (slider_max self)) self
    | precise =>
        let self := set_mode maelzel self in
        let self := set_tempo_input (setVisible false (tempo_input self)) self in
        let self := set_tempo_input (setEnabled false (tempo_input self)) self in
        let self := set_tempo_prompt (setVisible false (tempo_prompt self)) self in
        let self := set_slider (setSliderEnabled true (slider self)) self in
        let self := set_slider_min (setVisible true (slider_min self)) self in
        let self := set_slider (setSliderVisible true (slider self)) self in
        set_slider_max (setVisible true (slider_max self)) self
    end in
  self <- update_tempo fuel self ;;
  Ok (set_mode_indicator
        (setText ("Mode: " ++ Mode_str (mode self)) (mode_indicator self))
        self).

(** ** [__start_stop_metronome] *)

Definition start_stop_metronome (self : t) : result t :=
  if negb (playing self) then
    let self :=
      set_start_stop_button (setText "Stop" (start_stop_button self)) self in
    let self := set_slider (setSliderEnabled false (slider self)) self in
    i <- floordiv 60000 (current_tempo self) ;;
    let self := set_timer (setUpdateInterval i (timer self)) self in
    let self := set_timer (start (timer self)) self in
    Ok (set_playing true self)
  else
    let self :=
      set_start_stop_button (setText "Start" (start_stop_button self)) self in
    let self := set_slider (setSliderEnabled true (slider self)) self in
    let self := set_timer (stop (timer self)) self in
    Ok (set_playing false self).

(** ** [__init__]

    The attributes are assigned one after the other; [blank] holds the
    three that [__init__] itself assigns, next to widgets still to be
    created. *)

Definition blank (tempo : Z) : t :=
  mk tempo false maelzel (newTimeLine 0) (newWidget "") (newWidget "")
     (newWidget "") (mkSlider 0 99 0 true true) (newWidget "")
     (newWidget "") (newWidget "") (mkValidator 0 0) (newWidget "")
     (newWidget "").

Definition init_metronome (self : t) : t :=
  let self := set_timer (newTimeLine 600000) self in
  set_timer (setLoopCount 0 (timer self)) self.

Definition create_indication (self : t) : t :=
  let self :=
    set_tempo_indicator (newWidget (str (current_tempo self))) self in
  set_traditional_marking (newWidget (get_marking self)) self.

Definition create_controls (self : t) : result t :=
  lo <- getitem tempi 0 ;;
  let self := set_slider_min (newWidget (str lo)) self in
  hi <- getitem tempi (-1) ;;
  let self := set_slider_max (newWidget (str hi)) self in
  let self :=
    set_slider
      (mkSlider 0 (Z.of_nat (List.length tempi) - 1) 0 true true) self in
  let self :=
    set_tempo_prompt (newWidget "Input integer BPM (20–300):") self in
  let self :=
    set_tempo_input (newWidget (str (current_tempo self))) self in
  let self := set_validator (mkValidator 20 300) self in
  let self := set_tempo_prompt (setVisible false (tempo_prompt self)) self in
  let self := set_tempo_prompt (setEnabled false (tempo_prompt self)) self in
  let self := set_tempo_input (setVisible false (tempo_input self)) self in
  let self := set_tempo_input (setEnabled false (tempo_input self)) self in
  Ok (set_start_stop_button (newWidget "Start") self).

Definition init_statusbar (self : t) : t :=
  set_mode_indicator (newWidget ("Mode: " ++ Mode_str (mode self))) self.

Definition init : result t :=
  tempo <- getitem tempi 0 ;;
  let self := blank tempo in
  let self := init_metronome self in
  self <- create_controls (create_indication self) ;;
  Ok (init_statusbar self).

(** ** The events the window reacts to

    The slider and the line edit take user input only while shown and
    enabled.  [QLineEdit] emits [editingFinished] when its text is
    acceptable to the validator, calling [fixup] first when it is not.

    [TextEdited] lets any text into the line edit, and [hasAcceptableInput]
    accepts every text [int] reads within the range.  The real line edit
    holds fewer texts, since its validator refuses key strokes, and commits
    fewer; every text it can hold takes here the step it takes there.  What
    is proved of all reachable windows therefore holds of the real ones,
    and the outcome of a commit is stated only for texts the real line edit
    holds: the empty text and decimal numerals up to the validator's
    top. *)

Inductive event : Type :=
| SwitchMode
| SliderMoved (v : Z)
| TextEdited (s : string)
| EditingFinished
| StartStopPressed.

Definition slider_moved (fuel : nat) (v : Z) (self : t) : result t :=
  let (sl, changed) := setValue v (slider self) in
  let self := set_slider sl self in
  if changed then update_tempo fuel self else Ok self.

Definition editing_finished (fuel : nat) (self : t) : result t :=
  let s := text (tempo_input self) in
  if hasAcceptableInput (validator self) s then update_tempo fuel self
  else
    s' <- TempoValidator.fixup fuel (validator self) s ;;
    if hasAcceptableInput (validator self) s'
    then update_tempo fuel
           (set_tempo_input (setText s' (tempo_input self)) self)
    else Ok self.

Definition handle (fuel : nat) (ev : event) (self : t) : result t :=
  match ev with
  | SwitchMode => switch_mode fuel self
  | SliderMoved v =>
      if sliderInteractive (slider self)
      then slider_moved fuel v self else Ok self
  | TextEdited s =>
      if interactive (tempo_input self)
      then Ok (set_tempo_input (setText s (tempo_input self)) self)
      else Ok self
  | EditingFinished =>
      if interactive (tempo_input self)
      then editing_finished fuel self else Ok self
  | StartStopPressed => start_stop_metronome self
  end.

Fixpoint run (fuel : nat) (evs : list event) (self : t) : result t :=
  match evs with
  | [] => Ok self
  | ev :: evs' => self <- handle fuel ev self ;; run fuel evs' self
  end.

(** States the window can be in: [init] followed by handled events. *)
Inductive reachable : t -> Prop :=
| reachable_init : forall s, init = Ok s -> reachable s
| reachable_step : forall fuel ev s s',
    reachable s -> handle fuel ev s = Ok s' -> reachable s'.

End Metronome.

Import Metronome.

(* ================================================================== *)
(** * Definitions used to state the properties *)
(* ================================================================== *)

(** The marking table as the specification prints it: inclusive upper
    bounds, ascending. *)
Definition spec_marking_table : list (Z * string) :=
  [ (24, "Larghissimo"); (40, "Grave"); (60, "Largo"); (66, "Larghetto");
    (76, "Adagio"); (108, "Andante"); (120, "Moderato"); (168, "Allegro");
    (200, "Presto") ].

Fixpoint spec_lookup (rows : list (Z * string)) (tempo : Z) : string :=
  match rows with
  | [] => "Prestissimo"
  | (ub, name) :: rows' => if tempo <=? ub then name else spec_lookup rows' tempo
  end.

Definition spec_marking (tempo : Z) : string :=
  spec_lookup spec_marking_table tempo.

(** Where [__update_tempo] leaves the slider for a tempo: the value the
    slider reports after [setValue(bisect_left(tempi, tempo))]. *)
Definition slider_position (sl : QSlider) (tempo : Z) : Z :=
  value (fst (setValue (Z.of_nat (bisect_left tempi tempo)) sl)).

(** The last two statements of [__update_tempo]: both labels brought up
    to date with [current_tempo]. *)
Definition shown (self : t) : t :=
  let self :=
    set_tempo_indicator
      (setText (str (current_tempo self)) (tempo_indicator self)) self in
  set_traditional_marking
    (setText (get_marking self) (traditional_marking self)) self.

(** What the handlers keep true of the window.  In Maelzel mode the tempo
    is the table entry under the slider and the hidden line edit shows it;
    in precise mode the tempo is within the validator's range and the
    hidden slider sits where [__update_tempo] left it. *)
Definition consistent (s : t) : Prop :=
  minimum (slider s) = 0 /\
  maximum (slider s) = 38 /\
  0 <= value (slider s) <= 38 /\
  validator s = mkValidator 20 300 /\
  match mode s with
  | maelzel =>
      getitem tempi (value (slider s)) = Ok (current_tempo s) /\
      text (tempo_input s) = str (current_tempo s) /\
      interactive (tempo_input s) = false
  | precise =>
      20 <= current_tempo s <= 300 /\
      value (slider s) = slider_position (slider s) (current_tempo s) /\
      sliderVisible (slider s) = false /\
      interactive (tempo_input s) = true
  end.

(** The two branches of [__start_stop_metronome]: the start and the stop
    of the playback controller, lines 256 to 261 and 263 to 267. *)
Definition start_playback (self : t) : result t :=
  let self :=
    set_start_stop_button (setText "Stop" (start_stop_button self)) self in
  let self := set_slider (setSliderEnabled false (slider self)) self in
  i <- floordiv 60000 (current_tempo self) ;;
  let self := set_timer (setUpdateInterval i (timer self)) self in
  let self := set_timer (start (timer self)) self in
  Ok (set_playing true self).

Definition stop_playback (self : t) : t :=
  let self :=
    set_start_stop_button (setText "Start" (start_stop_button self)) self in
  let self := set_slider (setSliderEnabled true (slider self)) self in
  let self := set_timer (stop (timer self)) self in
  set_playing false self.

(** Concrete windows, named by the events that lead to them from [init]. *)
Definition window_of (r : result t) : t :=
  match r with
  | Ok s => s
  | _ => blank 0
  end.

Definition after (evs : list event) : result t :=
  s <- init ;; run 2 evs s.

Definition initial_window : t := Eval vm_compute in window_of init.

Definition playing_window : t :=
  Eval vm_compute in window_of (after [StartStopPressed]).

Definition stopped_window : t :=
  Eval vm_compute in window_of (after [StartStopPressed; StartStopPressed]).

Definition precise_250_playing : t :=
  Eval vm_compute in
    window_of (after [SwitchMode; TextEdited "250"; EditingFinished;
                      StartStopPressed]).

Definition switched_while_playing : t :=
  Eval vm_compute in
    window_of (after [SwitchMode; TextEdited "250"; EditingFinished;
                      StartStopPressed; SwitchMode]).

Definition precise_empty_text : t :=
  Eval vm_compute in window_of (after [SwitchMode; TextEdited EmptyString]).

(** A text without white space: [strip] leaves it alone. *)
Fixpoint no_space (s : string) : bool :=
  match s with
  | EmptyString => true
  | String c s' => negb (is_space c) && no_space s'
  end.

(* ================================================================== *)
(** * [__init_window] *)
(* ================================================================== *)

(** What [__init_window] gives the window: the rectangle of
    [setGeometry], the size fixed by [setFixedSize(self.size())] and the
    title.  [screens] is [QApplication.screens()], each screen by the width
    and height of its size. *)
Record Geometry : Type := mkGeometry {
  geo_x : Z;
  geo_y : Z;
  geo_width : Z;
  geo_height : Z
}.

Record WindowFrame : Type := mkFrame {
  geometry : Geometry;
  fixedSize : Z * Z;
  windowTitle : string
}.

Definition init_window (screens : list (Z * Z)) : result WindowFrame :=
  match screens with
  | [] => Raise IndexError
  | (sw, sh) :: _ =>
      let w := 300 in
      let h := 400 in
      let g := mkGeometry ((sw - w) / 2) ((sh - h) / 2) w h in
      Ok (mkFrame g (geo_width g, geo_height g) "MetronomiQ")
  end.

(* ================================================================== *)
(** * What the handlers keep true of the controls and labels *)
(* ================================================================== *)

(** The part of the window [__update_tempo] does not write: everything but
    the tempo, the slider's value, the line edit's text and the texts of the
    two tempo labels. *)
Definition same_controls (s s' : t) : Prop :=
  playing s' = playing s /\
  mode s' = mode s /\
  timer s' = timer s /\
  slider_min s' = slider_min s /\
  slider_max s' = slider_max s /\
  tempo_prompt s' = tempo_prompt s /\
  validator s' = validator s /\
  start_stop_button s' = start_stop_button s /\
  mode_indicator s' = mode_indicator s /\
  enabled (tempo_input s') = enabled (tempo_input s) /\
  visible (tempo_input s') = visible (tempo_input s) /\
  minimum (slider s') = minimum (slider s) /\
  maximum (slider s') = maximum (slider s) /\
  sliderEnabled (slider s') = sliderEnabled (slider s) /\
  sliderVisible (slider s') = sliderVisible (slider s).

(** The two tempo labels show the current tempo and its marking. *)
Definition tempo_labels_ok (s : t) : Prop :=
  text (tempo_indicator s) = str (current_tempo s) /\
  text (traditional_marking s) = get_marking s.

(** The status bar names the current mode. *)
Definition mode_label_ok (s : t) : Prop :=
  text (mode_indicator s) = "Mode: " ++ Mode_str (mode s).

(** The button offers the action that applies, and the timer runs exactly
    while the playing flag is set, on the settings of [__init_metronome]. *)
Definition playback_ok (s : t) : Prop :=
  text (start_stop_button s) = (if playing s then "Stop" else "Start") /\
  state (timer s) = (if playing s then Running else NotRunning) /\
  duration (timer s) = 600000 /\
  loopCount (timer s) = 0.

(** Each mode shows its own control and hides the other one's. *)
Definition controls_match_mode (s : t) : Prop :=
  match mode s with
  | maelzel =>
      sliderVisible (slider s) = true /\
      visible (slider_min s) = true /\
      visible (slider_max s) = true /\
      visible (tempo_input s) = false /\
      enabled (tempo_input s) = false /\
      visible (tempo_prompt s) = false /\
      (playing s = false -> sliderEnabled (slider s) = true)
  | precise =>
      sliderVisible (slider s) = false /\
      visible (slider_min s) = false /\
      visible (slider_max s) = false /\
      visible (tempo_input s) = true /\
      enabled (tempo_input s) = true /\
      visible (tempo_prompt s) = true /\
      True
  end /\
  enabled (tempo_prompt s) = false /\
  text (slider_min s) = "40" /\
  text (slider_max s) = "208".

Definition tidy (s : t) : Prop :=
  tempo_labels_ok s /\ mode_label_ok s /\ playback_ok s /\ controls_match_mode s.

(** The window after switching to precise mode and typing 100, before the
    text is committed. *)
Definition precise_typed_100 : t :=
  Eval vm_compute in window_of (after [SwitchMode; TextEdited "100"]).

(** The same with 250 typed, a tempo above the table. *)
Definition precise_typed_250 : t :=
  Eval vm_compute in window_of (after [SwitchMode; TextEdited "250"]).

(* ================================================================== *)
(** * [str] and [int] *)
(* ================================================================== *)

Lemma Ok_inj {A : Type} (a b : A) : Ok a = Ok b -> a = b.
Proof. intros H. congruence. Qed.

Section StrInt.

Lemma digit_cases (d : Z) :
  0 <= d < 10 ->
  d = 0 \/ d = 1 \/ d = 2 \/ d = 3 \/ d = 4 \/
  d = 5 \/ d = 6 \/ d = 7 \/ d = 8 \/ d = 9.
Proof. lia. Qed.

Lemma digit_val_digit_char (d : Z) :
  0 <= d < 10 -> digit_val (digit_char d) = Some d.
Proof.
  intros H. destruct (digit_cases d H) as [E|[E|[E|[E|[E|[E|[E|[E|[E|E]]]]]]]]];
    subst d; reflexivity.
Qed.

Lemma digit_char_props (d : Z) :
  0 <= d < 10 ->
  is_space (digit_char d) = false /\
  (digit_char d =? "-")%char = false /\
  (digit_char d =? "+")%char = false.
Proof.
  intros H. destruct (digit_cases d H) as [E|[E|[E|[E|[E|[E|[E|[E|[E|E]]]]]]]]];
    subst d; repeat split; reflexivity.
Qed.

Lemma pow10_step (f : nat) (n : Z) :
  0 <= n < 10 ^ Z.of_nat (S f) -> 0 <= n / 10 < 10 ^ Z.of_nat f.
Proof.
  rewrite Nat2Z.inj_succ, Z.pow_succ_r by lia. intros [H0 H1]. split.
  - apply Z.div_pos; lia.
  - apply Z.div_lt_upper_bound; lia.
Qed.

Lemma digits_fuel_enough (n : Z) :
  0 <= n -> n < 10 ^ Z.of_nat (digits_fuel n).
Proof.
  intros H. unfold digits_fuel.
  rewrite Nat2Z.inj_succ, Z2Nat.id by apply Z.log2_nonneg.
  destruct (Z.eq_dec n 0) as [->|Hn].
  - reflexivity.
  - assert (Hlog : n < 2 ^ Z.succ (Z.log2 n)) by (apply Z.log2_spec; lia).
    assert (Hpow : 2 ^ Z.succ (Z.log2 n) <= 10 ^ Z.succ (Z.log2 n)).
    { apply Z.pow_le_mono_l. lia. }
    lia.
Qed.

(** Reading back the digits [str_digits] wrote gives the number. *)
Lemma int_digits_str_digits (f : nat) :
  forall n acc pd,
    0 <= n < 10 ^ Z.of_nat (S f) ->
    int_digits 0 pd (str_digits (S f) n acc) = int_digits n true acc.
Proof.
  induction f as [|f IH]; intros n acc pd H;
    assert (Hmod : 0 <= n mod 10 < 10) by (apply Z.mod_pos_bound; lia);
    change (str_digits (S ?g) n acc)
      with (if n <? 10 then String (digit_char (n mod 10)) acc
            else str_digits g (n / 10) (String (digit_char (n mod 10)) acc));
    destruct (n <? 10) eqn:E.
  - apply Z.ltb_lt in E. rewrite Z.mod_small by lia.
    cbn [int_digits]. rewrite digit_val_digit_char by lia. f_equal.
  - apply Z.ltb_ge in E. change (10 ^ Z.of_nat 1) with 10 in H. lia.
  - apply Z.ltb_lt in E. rewrite Z.mod_small by lia.
    cbn [int_digits]. rewrite digit_val_digit_char by lia. f_equal.
  - rewrite IH by (apply pow10_step; exact H).
    cbn [int_digits]. rewrite digit_val_digit_char by exact Hmod.
    f_equal. pose proof (Z.div_mod n 10). lia.
Qed.

Lemma str_digits_head (f : nat) :
  forall n acc,
    0 <= n ->
    exists d r, 0 <= d < 10 /\ str_digits (S f) n acc = String (digit_char d) r.
Proof.
  induction f as [|f IH]; intros n acc H.
  - assert (Hmod : 0 <= n mod 10 < 10) by (apply Z.mod_pos_bound; lia).
    exists (n mod 10), acc. split; [exact Hmod|].
    cbn. destruct (n <? 10); reflexivity.
  - assert (Hmod : 0 <= n mod 10 < 10) by (apply Z.mod_pos_bound; lia).
    change (str_digits (S (S f)) n acc)
      with (if n <? 10 then String (digit_char (n mod 10)) acc
            else str_digits (S f) (n / 10) (String (digit_char (n mod 10)) acc)).
    destruct (n <? 10).
    + exists (n mod 10), acc. split; [exact Hmod|reflexivity].
    + apply IH. apply Z.div_pos; lia.
Qed.

Lemma str_digits_no_space (f : nat) :
  forall n acc,
    0 <= n -> no_space acc = true -> no_space (str_digits f n acc) = true.
Proof.
  induction f as [|f IH]; intros n acc H Hacc; [exact Hacc|].
  assert (Hmod : 0 <= n mod 10 < 10) by (apply Z.mod_pos_bound; lia).
  assert (Hstep : no_space (String (digit_char (n mod 10)) acc) = true).
  { cbn [no_space]. destruct (digit_char_props _ Hmod) as [-> _]. exact Hacc. }
  cbn [str_digits]. destruct (n <? 10); [exact Hstep|].
  apply IH; [apply Z.div_pos; lia|exact Hstep].
Qed.

Lemma rstrip_no_space (s : string) : no_space s = true -> rstrip s = s.
Proof.
  induction s as [|c s IH]; intros H; [reflexivity|].
  cbn [no_space] in H. apply andb_true_iff in H. destruct H as [Hc Hs].
  cbn [rstrip]. rewrite (IH Hs).
  apply negb_true_iff in Hc. rewrite Hc. destruct s; reflexivity.
Qed.

Lemma lstrip_no_space (s : string) : no_space s = true -> lstrip s = s.
Proof.
  destruct s as [|c s]; intros H; [reflexivity|].
  cbn [no_space] in H. apply andb_true_iff in H. destruct H as [Hc _].
  apply negb_true_iff in Hc. cbn [lstrip]. rewrite Hc. reflexivity.
Qed.

Lemma strip_no_space (s : string) : no_space s = true -> strip s = s.
Proof.
  intros H. unfold strip. rewrite (lstrip_no_space s H). apply rstrip_no_space, H.
Qed.

Lemma int_signed_str_digits (n : Z) :
  0 <= n -> int_signed (str_digits (digits_fuel n) n "") = Some n.
Proof.
  intros H.
  destruct (str_digits_head (Z.to_nat (Z.log2 n)) n "" H) as (d & r & Hd & E).
  fold (digits_fuel n) in E.
  destruct (digit_char_props d Hd) as (_ & Hminus & Hplus).
  unfold int_signed. rewrite E, Hminus, Hplus, <- E.
  unfold digits_fuel.
  rewrite int_digits_str_digits by (split; [exact H|apply digits_fuel_enough, H]).
  reflexivity.
Qed.

Lemma str_no_space (n : Z) : no_space (str n) = true.
Proof.
  unfold str. destruct (n <? 0) eqn:E.
  - apply Z.ltb_lt in E. cbn [no_space].
    rewrite str_digits_no_space by (try reflexivity; lia). reflexivity.
  - apply Z.ltb_ge in E. apply str_digits_no_space; [exact E|reflexivity].
Qed.

(** [int(str(n)) == n] for every integer. *)
Lemma int_str (n : Z) : int (str n) = Ok n.
Proof.
  unfold int. rewrite strip_no_space by apply str_no_space.
  unfold str. destruct (n <? 0) eqn:E.
  - apply Z.ltb_lt in E.
    change (int_signed (String "-" (str_digits (digits_fuel (- n)) (- n) "")))
      with (option_map Z.opp
              (int_digits 0 false (str_digits (digits_fuel (- n)) (- n) ""))).
    unfold digits_fuel.
    rewrite int_digits_str_digits
      by (split; [lia|apply digits_fuel_enough; lia]).
    cbn. f_equal. lia.
  - apply Z.ltb_ge in E. rewrite int_signed_str_digits by exact E. reflexivity.
Qed.

Lemma str_nonempty (n : Z) : (str n =? "")%string = false.
Proof.
  destruct (str n =? "")%string eqn:E; [|reflexivity].
  apply String.eqb_eq in E. pose proof (int_str n) as H.
  rewrite E in H. discriminate H.
Qed.

Lemma str_inj (n m : Z) : str n = str m -> n = m.
Proof.
  intros H. pose proof (int_str n) as Hn. rewrite H, int_str in Hn.
  congruence.
Qed.

End StrInt.

(* ================================================================== *)
(** * [TempoValidator.fixup] *)
(* ================================================================== *)

Section Fixup.

Import TempoValidator.

Variable self : QIntValidator.
Hypothesis range_ok : bottom self <= top self.

(** One replacement at most: the replacing text is a bound of the range,
    which passes the loop condition. *)
Lemma fixup_loop_parsed (fuel : nat) (s : string) (n : Z) (count : nat) :
  int s = Ok n ->
  fixup_loop (S (S fuel)) self (bottom self) s count =
  Ok (if n <? bottom self then (str (bottom self), S count)
      else if top self <? n then (str (top self), S count)
      else (s, count)).
Proof.
  intros Hs. cbn [fixup_loop]. rewrite Hs. cbn [bind].
  destruct (n <? bottom self) eqn:Elo.
  - apply Z.ltb_lt in Elo.
    replace (bottom self <=? n) with false by (symmetry; apply Z.leb_gt; lia).
    cbn [andb]. rewrite int_str. cbn [bind].
    rewrite Z.leb_refl. cbn [andb].
    replace (bottom self <=? top self) with true
      by (symmetry; apply Z.leb_le; exact range_ok).
    reflexivity.
  - apply Z.ltb_ge in Elo.
    replace (bottom self <=? n) with true by (symmetry; apply Z.leb_le; lia).
    cbn [andb]. destruct (top self <? n) eqn:Ehi.
    + apply Z.ltb_lt in Ehi.
      replace (n <=? top self) with false by (symmetry; apply Z.leb_gt; lia).
      rewrite int_str. cbn [bind]. rewrite Z.leb_refl.
      replace (bottom self <=? top self) with true
        by (symmetry; apply Z.leb_le; exact range_ok).
      reflexivity.
    + apply Z.ltb_ge in Ehi.
      replace (n <=? top self) with true by (symmetry; apply Z.leb_le; lia).
      reflexivity.
Qed.

Lemma fixup_counted_parsed (fuel : nat) (s : string) (n : Z) :
  int s = Ok n ->
  fixup_counted (S (S fuel)) self s =
  Ok (if n <? bottom self then (str (bottom self), 1%nat)
      else if top self <? n then (str (top self), 1%nat)
      else (s, 0%nat)).
Proof.
  intros Hs. unfold fixup_counted.
  destruct (s =? "")%string eqn:E.
  - apply String.eqb_eq in E. subst s. discriminate Hs.
  - apply fixup_loop_parsed, Hs.
Qed.

Lemma fixup_counted_empty (fuel : nat) :
  fixup_counted (S fuel) self "" = Ok (str (bottom self), 0%nat).
Proof.
  unfold fixup_counted. cbn [String.eqb fixup_loop].
  rewrite int_str. cbn [bind]. rewrite Z.leb_refl.
  replace (bottom self <=? top self) with true
    by (symmetry; apply Z.leb_le; exact range_ok).
  reflexivity.
Qed.

Lemma fixup_parsed (fuel : nat) (s : string) (n : Z) :
  int s = Ok n ->
  fixup (S (S fuel)) self s =
  Ok (if n <? bottom self then str (bottom self)
      else if top self <? n then str (top self)
      else s).
Proof.
  intros Hs. unfold fixup. rewrite (fixup_counted_parsed fuel s n Hs).
  destruct (n <? bottom self); [reflexivity|].
  destruct (top self <? n); reflexivity.
Qed.

Lemma fixup_empty (fuel : nat) :
  fixup (S fuel) self "" = Ok (str (bottom self)).
Proof. unfold fixup. rewrite fixup_counted_empty. reflexivity. Qed.

(** What [fixup] returns is acceptable to the validator. *)
Lemma fixup_acceptable (fuel : nat) (s r : string) :
  fixup fuel self s = Ok r -> hasAcceptableInput self r = true.
Proof.
  unfold fixup, fixup_counted.
  generalize (if (s =? "")%string then str (bottom self) else s) as s0.
  generalize 0%nat as count.
  induction fuel as [|fuel IH]; intros count s0 H; [discriminate H|].
  cbn [fixup_loop] in H. unfold hasAcceptableInput.
  destruct (int s0) as [n| |] eqn:Hs; cbn [bind] in H; try discriminate H.
  destruct ((bottom self <=? n) && (n <=? top self)) eqn:E.
  - cbn [bind fst] in H. injection H as <-. rewrite Hs. exact E.
  - apply (IH _ _ H).
Qed.

End Fixup.

Lemma fixup_counted_unparsed (fuel : nat) (self : QIntValidator) (s : string) :
  s <> "" -> int s = Raise ValueError ->
  TempoValidator.fixup_counted (S fuel) self s = Raise ValueError.
Proof.
  intros Hne Hs. unfold TempoValidator.fixup_counted.
  destruct (s =? "")%string eqn:E.
  - apply String.eqb_eq in E. contradiction.
  - cbn [TempoValidator.fixup_loop]. rewrite Hs. reflexivity.
Qed.

(** [int] either returns or raises [ValueError]. *)
Lemma int_cases (s : string) :
  (exists n, int s = Ok n) \/ int s = Raise ValueError.
Proof.
  unfold int. destruct (int_signed (strip s)) as [n|]; [left; exists n|right];
    reflexivity.
Qed.

(* ================================================================== *)
(** * [bisect_left] on a sorted list *)
(* ================================================================== *)

Lemma StronglySorted_nth_lt (l : list Z) :
  StronglySorted Z.lt l ->
  forall i j, (i < j < List.length l)%nat -> nth i l 0 < nth j l 0.
Proof.
  induction 1 as [|x l _ IH Hall]; intros i j H.
  - cbn in H. lia.
  - cbn [List.length] in H. destruct j as [|j]; [lia|].
    destruct i as [|i]; cbn [nth].
    + rewrite Forall_forall in Hall. apply Hall, nth_In. lia.
    + apply IH. lia.
Qed.

Section Bisect.

Variable a : list Z.
Hypothesis a_sorted : StronglySorted Z.lt a.

Lemma sorted_nth_lt :
  forall i j, (i < j < List.length a)%nat -> nth i a 0 < nth j a 0.
Proof. exact (StronglySorted_nth_lt a a_sorted). Qed.

Lemma sorted_nth_le :
  forall i j, (i <= j < List.length a)%nat -> nth i a 0 <= nth j a 0.
Proof.
  intros i j H. destruct (Nat.eq_dec i j) as [->|Hne]; [lia|].
  apply Z.lt_le_incl, sorted_nth_lt. lia.
Qed.

(** The loop keeps every entry left of [lo] below [x] and every entry
    from [hi] on at or above [x]. *)
Lemma bisect_loop_spec (x : Z) (fuel : nat) :
  forall lo hi,
    (lo <= hi <= List.length a)%nat ->
    (hi - lo <= fuel)%nat ->
    (forall k, (k < lo)%nat -> nth k a 0 < x) ->
    (forall k, (hi <= k < List.length a)%nat -> x <= nth k a 0) ->
    let r := bisect_loop fuel a x lo hi in
    (r <= List.length a)%nat /\
    (forall k, (k < r)%nat -> nth k a 0 < x) /\
    (forall k, (r <= k < List.length a)%nat -> x <= nth k a 0).
Proof.
  induction fuel as [|fuel IH]; intros lo hi Hb Hf Hlo Hhi.
  - cbn. assert (lo = hi) by lia. subst hi. repeat split; [lia|exact Hlo|exact Hhi].
  - cbn [bisect_loop]. destruct (lo <? hi)%nat eqn:E.
    + apply Nat.ltb_lt in E.
      assert (Hmid : (lo <= (lo + hi) / 2 < hi)%nat).
      { split.
        - apply Nat.div_le_lower_bound; lia.
        - apply Nat.Div0.div_lt_upper_bound; lia. }
      set (mid := ((lo + hi) / 2)%nat) in *.
      destruct (nth mid a 0 <? x) eqn:Ecmp.
      * apply Z.ltb_lt in Ecmp. apply IH; [lia|lia| |exact Hhi].
        intros k Hk. destruct (Nat.eq_dec k mid) as [->|Hne]; [exact Ecmp|].
        apply Z.le_lt_trans with (nth mid a 0); [|exact Ecmp].
        apply sorted_nth_le. lia.
      * apply Z.ltb_ge in Ecmp. apply IH; [lia|lia|exact Hlo|].
        intros k Hk. apply Z.le_trans with (nth mid a 0); [exact Ecmp|].
        apply sorted_nth_le. lia.
    + apply Nat.ltb_ge in E. assert (lo = hi) by lia. subst hi.
      repeat split; [lia|exact Hlo|exact Hhi].
Qed.

(** [bisect_left] returns the leftmost insertion point. *)
Lemma bisect_left_spec (x : Z) :
  (bisect_left a x <= List.length a)%nat /\
  (forall k, (k < bisect_left a x)%nat -> nth k a 0 < x) /\
  (forall k, (bisect_left a x <= k < List.length a)%nat -> x <= nth k a 0).
Proof.
  unfold bisect_left. apply bisect_loop_spec; try lia; intros k Hk; lia.
Qed.

(** The insertion point is the only index with these two properties. *)
Lemma bisect_left_unique (x : Z) (r : nat) :
  (r <= List.length a)%nat ->
  (forall k, (k < r)%nat -> nth k a 0 < x) ->
  (forall k, (r <= k < List.length a)%nat -> x <= nth k a 0) ->
  bisect_left a x = r.
Proof.
  intros Hr Hlt Hge.
  destruct (bisect_left_spec x) as (Hb & Blt & Bge).
  destruct (Nat.lt_trichotomy (bisect_left a x) r) as [H|[H|H]]; [|exact H|].
  - specialize (Hlt _ H). specialize (Bge (bisect_left a x)). lia.
  - specialize (Blt _ H). specialize (Hge r). lia.
Qed.

Lemma bisect_left_entry (k : nat) :
  (k < List.length a)%nat -> bisect_left a (nth k a 0) = k.
Proof.
  intros Hk. apply bisect_left_unique; [lia| |].
  - intros j Hj. apply sorted_nth_lt. lia.
  - intros j Hj. apply sorted_nth_le. lia.
Qed.

Lemma bisect_left_above (x : Z) :
  (forall k, (k < List.length a)%nat -> nth k a 0 < x) ->
  bisect_left a x = List.length a.
Proof.
  intros H. apply bisect_left_unique; [lia|exact H|]. intros k Hk. lia.
Qed.

End Bisect.

(* ================================================================== *)
(** * The tempo table *)
(* ================================================================== *)

Lemma tempi_sorted : StronglySorted Z.lt tempi.
Proof.
  apply Sorted_StronglySorted; [exact Z.lt_trans|].
  vm_compute tempi. repeat (constructor; try reflexivity).
Qed.

Lemma tempi_length : List.length tempi = 39%nat.
Proof. reflexivity. Qed.

Lemma getitem_nth (a : list Z) (i : Z) :
  0 <= i < Z.of_nat (List.length a) ->
  getitem a i = Ok (nth (Z.to_nat i) a 0).
Proof.
  intros H. unfold getitem.
  replace (i <? 0) with false by (symmetry; apply Z.ltb_ge; lia).
  replace (0 <=? i) with true by (symmetry; apply Z.leb_le; lia).
  replace (i <? Z.of_nat (List.length a)) with true
    by (symmetry; apply Z.ltb_lt; lia).
  cbn [andb]. destruct (nth_error a (Z.to_nat i)) as [x|] eqn:E.
  - rewrite (nth_error_nth _ _ _ E). reflexivity.
  - apply nth_error_None in E. lia.
Qed.

Lemma tempi_nth_bounds (k : nat) :
  (k < 39)%nat -> 40 <= nth k tempi 0 <= 208.
Proof.
  intros Hk. pose proof tempi_sorted as S.
  assert (H0 : nth 0 tempi 0 <= nth k tempi 0)
    by (apply sorted_nth_le; [exact S|rewrite tempi_length; lia]).
  assert (H1 : nth k tempi 0 <= nth 38 tempi 0)
    by (apply sorted_nth_le; [exact S|rewrite tempi_length; lia]).
  change (nth 0 tempi 0) with 40 in H0. change (nth 38 tempi 0) with 208 in H1.
  lia.
Qed.

Lemma tempi_nth_In (k : nat) : (k < 39)%nat -> In (nth k tempi 0) tempi.
Proof. intros Hk. apply nth_In. rewrite tempi_length. exact Hk. Qed.

(* ================================================================== *)
(** * The slider *)
(* ================================================================== *)

Lemma setValue_value (v : Z) (sl : QSlider) :
  value (fst (setValue v sl)) = bound sl v.
Proof. reflexivity. Qed.

Lemma setValue_again (v : Z) (sl : QSlider) :
  setValue v (fst (setValue v sl)) = (fst (setValue v sl), false).
Proof.
  unfold setValue, bound. cbn [fst minimum maximum value sliderEnabled sliderVisible].
  rewrite Z.eqb_refl. reflexivity.
Qed.

Lemma setValue_snd (v : Z) (sl : QSlider) :
  snd (setValue v sl) = negb (bound sl v =? value sl).
Proof. reflexivity. Qed.

Lemma setValue_same (v : Z) (sl : QSlider) :
  bound sl v = value sl -> setValue v sl = (sl, false).
Proof.
  intros H. unfold setValue. rewrite H, Z.eqb_refl. destruct sl; reflexivity.
Qed.

Section SliderPosition.

Variable sl : QSlider.
Hypothesis sl_min : minimum sl = 0.
Hypothesis sl_max : maximum sl = 38.

Lemma slider_position_eq (tempo : Z) :
  slider_position sl tempo = Z.min 38 (Z.of_nat (bisect_left tempi tempo)).
Proof.
  unfold slider_position. rewrite setValue_value. unfold bound.
  rewrite sl_min, sl_max. lia.
Qed.

Lemma slider_position_range (tempo : Z) :
  0 <= slider_position sl tempo <= 38.
Proof. rewrite slider_position_eq. lia. Qed.

(** In the table's range the slider lands on the insertion point. *)
Lemma slider_position_low (tempo : Z) :
  tempo <= 208 ->
  slider_position sl tempo = Z.of_nat (bisect_left tempi tempo) /\
  (bisect_left tempi tempo < 39)%nat.
Proof.
  intros H. rewrite slider_position_eq.
  destruct (bisect_left_spec tempi tempi_sorted tempo) as (Hb & Hlt & _).
  rewrite tempi_length in Hb.
  assert (bisect_left tempi tempo <> 39%nat).
  { intros E. specialize (Hlt 38%nat). rewrite E in Hlt.
    change (nth 38 tempi 0) with 208 in Hlt. lia. }
  lia.
Qed.

(** Above the table the insertion point is [len(tempi)], and the slider
    stops at its maximum. *)
Lemma slider_position_high (tempo : Z) :
  208 < tempo ->
  bisect_left tempi tempo = 39%nat /\ slider_position sl tempo = 38.
Proof.
  intros H.
  assert (E : bisect_left tempi tempo = 39%nat).
  { rewrite <- tempi_length. apply bisect_left_above; [exact tempi_sorted|].
    rewrite tempi_length. intros k Hk. pose proof (tempi_nth_bounds k Hk). lia. }
  split; [exact E|]. rewrite slider_position_eq, E. reflexivity.
Qed.

Lemma slider_position_entry (k : nat) :
  (k < 39)%nat -> slider_position sl (nth k tempi 0) = Z.of_nat k.
Proof.
  intros Hk. rewrite slider_position_eq, bisect_left_entry.
  - lia.
  - exact tempi_sorted.
  - rewrite tempi_length. exact Hk.
Qed.

End SliderPosition.

(* ================================================================== *)
(** * [__update_tempo] *)
(* ================================================================== *)

Lemma update_tempo_maelzel (fuel : nat) (s : t) :
  mode s = maelzel ->
  0 <= value (slider s) <= 38 ->
  let x := nth (Z.to_nat (value (slider s))) tempi 0 in
  update_tempo (S fuel) s =
  Ok (shown (set_tempo_input (setText (str x) (tempo_input s))
               (set_current_tempo x s))).
Proof.
  intros Hm Hv x. cbn [update_tempo]. rewrite Hm.
  rewrite getitem_nth by (rewrite tempi_length; lia).
  reflexivity.
Qed.

(** The slot as run from within [setValue]: the tempo is read again from the
    same text and the slider, already in place, stays put. *)
Lemma update_tempo_precise (fuel : nat) (s : t) (x : Z) :
  mode s = precise ->
  (if (text (tempo_input s) =? "")%string
   then getitem tempi 0 else int (text (tempo_input s))) = Ok x ->
  update_tempo (S (S fuel)) s =
  Ok (shown (set_slider
               (fst (setValue (Z.of_nat (bisect_left tempi x)) (slider s)))
               (set_current_tempo x s))).
Proof.
  intros Hm Hx.
  change (update_tempo (S (S fuel)) s) with
    (self <-
       match mode s with
       | maelzel =>
           x <- getitem tempi (value (slider s)) ;;
           let self := set_current_tempo x s in
           Ok (set_tempo_input
                 (setText (str (current_tempo self)) (tempo_input self)) self)
       | precise =>
           let t := text (tempo_input s) in
           x <- (if (t =? "")%string then getitem tempi 0 else int t) ;;
           let self := set_current_tempo x s in
           let (sl, changed) :=
             setValue (Z.of_nat (bisect_left tempi (current_tempo self)))
                      (slider self) in
           let self := set_slider sl self in
           if changed then update_tempo (S fuel) self else Ok self
       end ;;
     Ok (shown self)).
  rewrite Hm. cbv zeta. rewrite Hx. cbn [bind].
  change (current_tempo (set_current_tempo x s)) with x.
  change (slider (set_current_tempo x s)) with (slider s).
  destruct (setValue (Z.of_nat (bisect_left tempi x)) (slider s))
    as [sl changed] eqn:E.
  cbn [fst]. destruct changed; [|reflexivity].
  cbn [update_tempo].
  change (mode (set_slider sl (set_current_tempo x s))) with (mode s).
  rewrite Hm.
  change (text (tempo_input (set_slider sl (set_current_tempo x s))))
    with (text (tempo_input s)).
  rewrite Hx. cbn [bind].
  change (current_tempo
            (set_current_tempo x (set_slider sl (set_current_tempo x s))))
    with x.
  change (slider (set_current_tempo x (set_slider sl (set_current_tempo x s))))
    with sl.
  assert (Hsl : sl = fst (setValue (Z.of_nat (bisect_left tempi x)) (slider s)))
    by (rewrite E; reflexivity).
  rewrite Hsl at 1. rewrite setValue_again. rewrite <- Hsl.
  destruct s; reflexivity.
Qed.

(** More fuel never changes a result. *)
Lemma update_tempo_fuel (fuel : nat) :
  forall s s', update_tempo fuel s = Ok s' -> update_tempo (S fuel) s = Ok s'.
Proof.
  induction fuel as [|fuel IH]; intros s s' H; [discriminate H|].
  cbn [update_tempo] in H.
  remember (S fuel) as g eqn:Eg. cbn [update_tempo]. revert H.
  destruct (mode s); [tauto|].
  cbv zeta.
  destruct (if (text (tempo_input s) =? "")%string
            then getitem tempi 0 else int (text (tempo_input s)))
    as [x| |]; cbn [bind]; try tauto.
  destruct (setValue _ _) as [sl changed]. destruct changed; [|tauto].
  intros H. subst g.
  destruct (update_tempo fuel _) as [s''| |] eqn:E; try discriminate H.
  rewrite (IH _ _ E). exact H.
Qed.

Lemma update_tempo_more_fuel (fuel k : nat) (s s' : t) :
  update_tempo fuel s = Ok s' -> update_tempo (k + fuel) s = Ok s'.
Proof.
  intros H. induction k as [|k IH]; [exact H|].
  apply update_tempo_fuel, IH.
Qed.

Lemma fixup_loop_fuel (fuel : nat) (v : QIntValidator) (b : Z) :
  forall s count r,
    TempoValidator.fixup_loop fuel v b s count = Ok r ->
    TempoValidator.fixup_loop (S fuel) v b s count = Ok r.
Proof.
  induction fuel as [|fuel IH]; intros s count r H; [discriminate H|].
  cbn [TempoValidator.fixup_loop] in H.
  remember (S fuel) as g eqn:Eg. cbn [TempoValidator.fixup_loop]. revert H.
  destruct (int s) as [n| |]; cbn [bind]; try tauto.
  destruct ((b <=? n) && (n <=? top v)); [tauto|].
  subst g. apply IH.
Qed.

Lemma fixup_fuel (fuel : nat) (v : QIntValidator) (s r : string) :
  TempoValidator.fixup fuel v s = Ok r ->
  TempoValidator.fixup (S fuel) v s = Ok r.
Proof.
  unfold TempoValidator.fixup, TempoValidator.fixup_counted.
  destruct (TempoValidator.fixup_loop fuel _ _ _ _) as [p| |] eqn:E;
    cbn [bind]; try discriminate.
  rewrite (fixup_loop_fuel _ _ _ _ _ _ E). tauto.
Qed.

Lemma handle_fuel (fuel : nat) (ev : event) (s s' : t) :
  handle fuel ev s = Ok s' -> handle (S fuel) ev s = Ok s'.
Proof.
  destruct ev as [|v|txt| |]; cbn [handle].
  - unfold switch_mode.
    destruct (update_tempo fuel _) as [s1| |] eqn:E; cbn [bind]; try discriminate.
    rewrite (update_tempo_fuel _ _ _ E). tauto.
  - destruct (sliderInteractive (slider s)); [|tauto].
    unfold slider_moved. destruct (setValue v (slider s)) as [sl changed].
    destruct changed; [apply update_tempo_fuel|tauto].
  - tauto.
  - destruct (interactive (tempo_input s)); [|tauto].
    unfold editing_finished.
    destruct (hasAcceptableInput _ _); [apply update_tempo_fuel|].
    destruct (TempoValidator.fixup fuel _ _) as [r| |] eqn:E;
      cbn [bind]; try discriminate.
    rewrite (fixup_fuel _ _ _ _ E). cbn [bind].
    destruct (hasAcceptableInput _ _); [apply update_tempo_fuel|tauto].
  - tauto.
Qed.

Lemma handle_more_fuel (fuel k : nat) (ev : event) (s s' : t) :
  handle fuel ev s = Ok s' -> handle (k + fuel) ev s = Ok s'.
Proof.
  intros H. induction k as [|k IH]; [exact H|].
  apply handle_fuel, IH.
Qed.

(* ================================================================== *)
(** * The handlers on a consistent window *)
(* ================================================================== *)

(** Normal form of a window built by setters on a record given field by
    field; [str], [int], [bisect_left] and the table stay folded. *)
Ltac fields :=
  cbv beta iota zeta delta
    [ set_current_tempo set_playing set_mode set_timer set_tempo_indicator
      set_traditional_marking set_slider_min set_slider set_slider_max
      set_tempo_prompt set_tempo_input set_validator set_start_stop_button
      set_mode_indicator shown get_marking
      current_tempo playing mode timer tempo_indicator traditional_marking
      slider_min slider slider_max tempo_prompt tempo_input validator
      start_stop_button mode_indicator
      setText setEnabled setVisible text enabled visible interactive
      setSliderEnabled setSliderVisible sliderInteractive
      minimum maximum value sliderEnabled sliderVisible
      setUpdateInterval start stop duration loopCount updateInterval state
      bottom top
      Mode_str String.append fst snd bind andb negb ].

Tactic Notation "fields" "in" hyp(H) :=
  cbv beta iota zeta delta
    [ set_current_tempo set_playing set_mode set_timer set_tempo_indicator
      set_traditional_marking set_slider_min set_slider set_slider_max
      set_tempo_prompt set_tempo_input set_validator set_start_stop_button
      set_mode_indicator shown get_marking
      current_tempo playing mode timer tempo_indicator traditional_marking
      slider_min slider slider_max tempo_prompt tempo_input validator
      start_stop_button mode_indicator
      setText setEnabled setVisible text enabled visible interactive
      setSliderEnabled setSliderVisible sliderInteractive
      minimum maximum value sliderEnabled sliderVisible
      setUpdateInterval start stop duration loopCount updateInterval state
      bottom top
      Mode_str String.append fst snd bind andb negb ] in H.

Ltac open_window s :=
  destruct s as [tempo pl md tm ti tr smin [mn mx v en vis] smax pr
                 [txt ien ivis] vl btn mi].

(** In Maelzel mode the tempo is the entry under the slider. *)
Lemma consistent_maelzel (s : t) :
  consistent s -> mode s = maelzel ->
  current_tempo s = nth (Z.to_nat (value (slider s))) tempi 0 /\
  slider_position (slider s) (current_tempo s) = value (slider s).
Proof.
  intros (Hmin & Hmax & Hv & _ & Hmode) Hm. rewrite Hm in Hmode.
  destruct Hmode as (Hget & _).
  rewrite getitem_nth in Hget by (rewrite tempi_length; lia).
  assert (E : nth (Z.to_nat (value (slider s))) tempi 0 = current_tempo s)
    by congruence.
  split; [symmetry; exact E|]. rewrite <- E.
  rewrite (slider_position_entry _ Hmin Hmax) by lia.
  lia.
Qed.

Lemma switch_mode_maelzel (fuel : nat) (s : t) :
  consistent s -> mode s = maelzel ->
  switch_mode (S (S fuel)) s =
  Ok (mk (current_tempo s) (playing s) precise (timer s)
         (setText (str (current_tempo s)) (tempo_indicator s))
         (setText (get_marking s) (traditional_marking s))
         (setVisible false (slider_min s))
         (mkSlider 0 38 (value (slider s)) false false)
         (setVisible false (slider_max s))
         (setVisible true (tempo_prompt s))
         (mkWidget (str (current_tempo s)) true true)
         (validator s) (start_stop_button s)
         (setText "Mode: Precise tempo" (mode_indicator s))).
Proof.
  intros Hc Hm. destruct (consistent_maelzel s Hc Hm) as (_ & Hpos).
  destruct Hc as (Hmin & Hmax & Hv & _ & Hmode). rewrite Hm in Hmode.
  destruct Hmode as (_ & Htext & _).
  unfold switch_mode. rewrite Hm.
  rewrite (update_tempo_precise fuel _ (current_tempo s)); [|reflexivity|].
  - unfold slider_position in Hpos. rewrite setValue_value in Hpos.
    unfold setValue, bound in *. open_window s.
    fields in Hmin. fields in Hmax. fields in Hpos. fields in Htext.
    subst mn mx txt. fields. rewrite Hpos. reflexivity.
  - open_window s. fields in Htext. fields. subst txt.
    rewrite str_nonempty. apply int_str.
Qed.

Lemma switch_mode_precise (fuel : nat) (s : t) :
  mode s = precise ->
  0 <= value (slider s) <= 38 ->
  let x := nth (Z.to_nat (value (slider s))) tempi 0 in
  switch_mode (S fuel) s =
  Ok (mk x (playing s) maelzel (timer s)
         (setText (str x) (tempo_indicator s))
         (setText (get_marking (set_current_tempo x s)) (traditional_marking s))
         (setVisible true (slider_min s))
         (mkSlider (minimum (slider s)) (maximum (slider s))
                   (value (slider s)) true true)
         (setVisible true (slider_max s))
         (setVisible false (tempo_prompt s))
         (mkWidget (str x) false false)
         (validator s) (start_stop_button s)
         (setText "Mode: Maelzel's metronome" (mode_indicator s))).
Proof.
  intros Hm Hv x. unfold switch_mode. rewrite Hm.
  rewrite update_tempo_maelzel; [|reflexivity|exact Hv].
  subst x. open_window s. fields. reflexivity.
Qed.

Lemma acceptable_range (v : QIntValidator) (s : string) :
  hasAcceptableInput v s = true ->
  exists n, int s = Ok n /\ bottom v <= n <= top v /\ (s =? "")%string = false.
Proof.
  unfold hasAcceptableInput. intros H.
  destruct (int s) as [n| |] eqn:E; try discriminate H.
  exists n. split; [reflexivity|]. split; [lia|].
  destruct (s =? "")%string eqn:Es; [|reflexivity].
  apply String.eqb_eq in Es. subst s. discriminate E.
Qed.

(** The precise branch establishes the invariant whenever the text it
    reads is acceptable. *)
Lemma update_tempo_acceptable (fuel : nat) (s : t) :
  consistent s -> mode s = precise ->
  hasAcceptableInput (validator s) (text (tempo_input s)) = true ->
  exists n s',
    int (text (tempo_input s)) = Ok n /\ 20 <= n <= 300 /\
    update_tempo (S (S fuel)) s = Ok s' /\
    current_tempo s' = n /\ mode s' = precise /\
    timer s' = timer s /\ playing s' = playing s /\
    consistent s'.
Proof.
  intros (Hmin & Hmax & Hv & Hval & Hmode) Hm Hacc. rewrite Hm in Hmode.
  destruct Hmode as (_ & _ & Hvis & Hint).
  destruct (acceptable_range _ _ Hacc) as (n & Hn & Hr & Hne).
  rewrite Hval in Hr. cbn [bottom top] in Hr.
  exists n. eexists. split; [exact Hn|]. split; [exact Hr|].
  split; [apply update_tempo_precise; [exact Hm|rewrite Hne; exact Hn]|].
  pose proof (slider_position_range (slider s) Hmin Hmax n) as Hp.
  unfold consistent, slider_position, setValue, bound in *.
  open_window s. fields in Hm. fields in Hmin. fields in Hmax.
  fields in Hval. fields in Hvis. fields in Hint. fields in Hp.
  subst md mn mx vl vis. fields. rewrite Hint.
  repeat split; try reflexivity; try lia.
Qed.

Lemma slider_moved_consistent (fuel : nat) (p : Z) (s s' : t) :
  consistent s -> sliderInteractive (slider s) = true ->
  slider_moved fuel p s = Ok s' ->
  consistent s' /\ timer s' = timer s /\ playing s' = playing s.
Proof.
  intros Hc Hi H.
  assert (Hm : mode s = maelzel).
  { destruct Hc as (_ & _ & _ & _ & Hmode). destruct (mode s); [reflexivity|].
    destruct Hmode as (_ & _ & Hvis & _). unfold sliderInteractive in Hi.
    rewrite Hvis, andb_false_r in Hi. discriminate Hi. }
  destruct Hc as (Hmin & Hmax & Hv & Hval & Hmode). rewrite Hm in Hmode.
  destruct Hmode as (Hget & Htext & Hint).
  unfold slider_moved in H.
  assert (Hb : 0 <= bound (slider s) p <= 38) by (unfold bound; lia).
  destruct (setValue p (slider s)) as [sl changed] eqn:E.
  assert (Hsl : sl = fst (setValue p (slider s))) by (rewrite E; reflexivity).
  assert (Hch : changed = snd (setValue p (slider s))) by (rewrite E; reflexivity).
  rewrite setValue_snd in Hch. clear E.
  destruct changed.
  - destruct fuel as [|fuel]; [discriminate H|].
    rewrite update_tempo_maelzel in H;
      [|exact Hm|subst sl; exact Hb].
    apply Ok_inj in H. subst s' sl. unfold setValue, consistent, bound in *.
    open_window s. fields in Hm. fields in Hmin. fields in Hmax.
    fields in Hval. fields in Hint. fields in Hb.
    subst md mn mx vl. fields.
    rewrite getitem_nth by (rewrite tempi_length; lia).
    repeat split; try reflexivity; try lia; exact Hint.
  - apply Ok_inj in H.
    symmetry in Hch. apply negb_false_iff, Z.eqb_eq in Hch.
    subst s' sl. unfold setValue, consistent, bound in *.
    open_window s. fields in Hm. fields in Hmin. fields in Hmax.
    fields in Hval. fields in Hint. fields in Hb. fields in Hch.
    fields in Hget. fields in Htext. fields in Hv.
    subst md mn mx vl. fields. rewrite Hch.
    repeat split; try reflexivity; try lia; assumption.
Qed.

Lemma consistent_tempo_range (s : t) :
  consistent s ->
  20 <= current_tempo s <= 300 /\
  (mode s = maelzel -> In (current_tempo s) tempi /\ 40 <= current_tempo s <= 208).
Proof.
  intros Hc. destruct (mode s) eqn:Hm.
  - destruct (consistent_maelzel s Hc Hm) as (E & _).
    destruct Hc as (_ & _ & Hv & _).
    assert (Hk : (Z.to_nat (value (slider s)) < 39)%nat) by lia.
    pose proof (tempi_nth_bounds _ Hk) as Hb. pose proof (tempi_nth_In _ Hk) as Hin.
    rewrite <- E in Hb, Hin. split; [lia|]. intros _. split; [exact Hin|lia].
  - destruct Hc as (_ & _ & _ & _ & Hmode). rewrite Hm in Hmode.
    split; [tauto|discriminate].
Qed.

Lemma consistent_set_text (r : string) (s : t) :
  consistent s -> mode s = precise ->
  consistent (set_tempo_input (setText r (tempo_input s)) s).
Proof.
  intros Hc Hm. unfold consistent, slider_position, setValue, bound in *.
  open_window s. fields in Hm. subst md. fields in Hc. fields. exact Hc.
Qed.

Lemma switch_mode_consistent (fuel : nat) (s s' : t) :
  consistent s -> switch_mode (S (S fuel)) s = Ok s' -> consistent s'.
Proof.
  intros Hc H. destruct (mode s) eqn:Hm.
  - rewrite (switch_mode_maelzel fuel s Hc Hm) in H.
    destruct (consistent_tempo_range s Hc) as (Hr & _).
    destruct (consistent_maelzel s Hc Hm) as (_ & Hpos).
    destruct Hc as (Hmin & Hmax & Hv & Hval & _).
    rewrite (slider_position_eq _ Hmin Hmax) in Hpos.
    apply Ok_inj in H.
    subst s'. unfold consistent.
    cbn [slider minimum maximum value validator mode current_tempo
         sliderVisible tempo_input interactive enabled visible andb].
    rewrite slider_position_eq by reflexivity.
    repeat split; try reflexivity; try lia; try exact Hval.
  - destruct Hc as (Hmin & Hmax & Hv & Hval & _).
    rewrite (switch_mode_precise (S fuel) s Hm Hv) in H.
    apply Ok_inj in H.
    subst s'. unfold consistent.
    cbn [slider minimum maximum value validator mode current_tempo
         sliderVisible tempo_input interactive enabled visible andb text].
    rewrite getitem_nth by (rewrite tempi_length; lia).
    repeat split; try reflexivity; try lia; try assumption.
Qed.

Lemma editing_finished_consistent (fuel : nat) (s s' : t) :
  consistent s -> mode s = precise ->
  editing_finished (S (S fuel)) s = Ok s' ->
  consistent s' /\ 20 <= current_tempo s' <= 300.
Proof.
  intros Hc Hm H. unfold editing_finished in H.
  destruct (hasAcceptableInput (validator s) (text (tempo_input s))) eqn:Hacc.
  - destruct (update_tempo_acceptable fuel s Hc Hm Hacc)
      as (n & s1 & _ & Hr & Hu & Hn & _ & _ & _ & Hc1).
    assert (s' = s1) by congruence. subst s1 n. tauto.
  - destruct (TempoValidator.fixup (S (S fuel)) (validator s)
                (text (tempo_input s))) as [r| |] eqn:Hf;
      cbn [bind] in H; try discriminate H.
    pose proof (fixup_acceptable _ _ _ _ Hf) as Hr.
    rewrite Hr in H.
    pose proof (consistent_set_text r s Hc Hm) as Hc'.
    destruct (update_tempo_acceptable fuel _ Hc' Hm Hr)
      as (n & s1 & _ & Hrg & Hu & Hn & _ & _ & _ & Hc1).
    assert (s' = s1) by congruence. subst s1 n. tauto.
Qed.

Lemma start_stop_consistent (s s' : t) :
  consistent s -> start_stop_metronome s = Ok s' -> consistent s'.
Proof.
  intros Hc H. unfold start_stop_metronome in H.
  destruct (negb (playing s)).
  - cbv zeta in H.
    destruct (floordiv 60000 _) as [i| |]; cbn [bind] in H; try discriminate H.
    apply Ok_inj in H.
    subst s'. unfold consistent, slider_position, setValue, bound in *.
    open_window s. fields in Hc. fields. exact Hc.
  - cbv zeta in H.
    apply Ok_inj in H.
    subst s'. unfold consistent, slider_position, setValue, bound in *.
    open_window s. fields in Hc. fields. exact Hc.
Qed.

Lemma handle_consistent (fuel : nat) (ev : event) (s s' : t) :
  consistent s -> handle fuel ev s = Ok s' -> consistent s'.
Proof.
  intros Hc H. apply (handle_more_fuel _ 2) in H.
  change (2 + fuel)%nat with (S (S fuel)) in H.
  assert (Hin : mode s = maelzel -> interactive (tempo_input s) = false).
  { intros Hm. destruct Hc as (_ & _ & _ & _ & Hmode). rewrite Hm in Hmode. tauto. }
  destruct ev as [|p|txt| |]; cbn [handle] in H.
  - exact (switch_mode_consistent _ _ _ Hc H).
  - destruct (sliderInteractive (slider s)) eqn:Hi.
    + exact (proj1 (slider_moved_consistent _ _ _ _ Hc Hi H)).
    + congruence.
  - destruct (interactive (tempo_input s)) eqn:Hi; [|congruence].
    destruct (mode s) eqn:Hm; [specialize (Hin eq_refl); congruence|].
    apply Ok_inj in H. subst s'. apply consistent_set_text; assumption.
  - destruct (interactive (tempo_input s)) eqn:Hi; [|congruence].
    destruct (mode s) eqn:Hm; [specialize (Hin eq_refl); congruence|].
    exact (proj1 (editing_finished_consistent _ _ _ Hc Hm H)).
  - exact (start_stop_consistent _ _ Hc H).
Qed.

Lemma init_consistent (s : t) : init = Ok s -> consistent s.
Proof.
  intros H. vm_compute in H. apply Ok_inj in H. subst s.
  unfold consistent. cbn [slider minimum maximum value validator mode].
  repeat split; try reflexivity; try lia.
Qed.

Lemma reachable_consistent (s : t) : reachable s -> consistent s.
Proof.
  induction 1 as [s H|fuel ev s s' _ IH H].
  - exact (init_consistent s H).
  - exact (handle_consistent fuel ev s s' IH H).
Qed.

(** [__update_tempo] leaves the timer, the playing flag and the mode
    alone, however deep the slot nests. *)
Lemma update_tempo_frame (fuel : nat) :
  forall s s',
    update_tempo fuel s = Ok s' ->
    timer s' = timer s /\ playing s' = playing s /\ mode s' = mode s.
Proof.
  induction fuel as [|fuel IH]; intros s s' H; [discriminate H|].
  cbn [update_tempo] in H. destruct (mode s) eqn:Hm.
  - destruct (getitem tempi (value (slider s))) as [x| |];
      cbn [bind] in H; try discriminate H.
    apply Ok_inj in H. subst s'.
    rewrite <- Hm. open_window s. fields. repeat split; reflexivity.
  - cbv zeta in H.
    destruct (if (text (tempo_input s) =? "")%string
              then getitem tempi 0 else int (text (tempo_input s)))
      as [x| |]; cbn [bind] in H; try discriminate H.
    destruct (setValue _ _) as [sl changed]. destruct changed.
    + destruct (update_tempo fuel _) as [s1| |] eqn:E1;
        cbn [bind] in H; try discriminate H.
      apply IH in E1. destruct E1 as (Ht & Hp & Hmd).
      apply Ok_inj in H.
      assert (F : timer s' = timer s1 /\ playing s' = playing s1 /\
                  mode s' = mode s1) by (subst s'; repeat split; reflexivity).
      destruct F as (Ft & Fp & Fm). rewrite Ft, Fp, Fm, Ht, Hp, Hmd.
      repeat split; try reflexivity. exact Hm.
    + apply Ok_inj in H. subst s'.
      rewrite <- Hm. open_window s. fields. repeat split; reflexivity.
Qed.

Lemma handle_frame (fuel : nat) (ev : event) (s s' : t) :
  ev <> StartStopPressed ->
  handle fuel ev s = Ok s' ->
  timer s' = timer s /\ playing s' = playing s.
Proof.
  intros Hev H. destruct ev as [|p|txt| |]; cbn [handle] in H.
  - unfold switch_mode in H.
    destruct (update_tempo fuel _) as [s1| |] eqn:E; cbn [bind] in H;
      try discriminate H.
    apply update_tempo_frame in E. destruct E as (Ht & Hp & _).
    apply Ok_inj in H.
    assert (F : timer s' = timer s1 /\ playing s' = playing s1)
      by (subst s'; split; reflexivity).
    destruct F as (Ft & Fp). rewrite Ft, Fp, Ht, Hp.
    destruct (mode s); split; reflexivity.
  - destruct (sliderInteractive (slider s)).
    + unfold slider_moved in H. destruct (setValue p (slider s)) as [sl ch].
      destruct ch.
      * apply update_tempo_frame in H. destruct H as (Ht & Hp & _).
        rewrite Ht, Hp. split; reflexivity.
      * apply Ok_inj in H. subst s'. split; reflexivity.
    + apply Ok_inj in H. subst s'. split; reflexivity.
  - destruct (interactive (tempo_input s)).
    + apply Ok_inj in H. subst s'. split; reflexivity.
    + apply Ok_inj in H. subst s'. split; reflexivity.
  - destruct (interactive (tempo_input s)).
    + unfold editing_finished in H.
      destruct (hasAcceptableInput _ _).
      * apply update_tempo_frame in H. tauto.
      * destruct (TempoValidator.fixup _ _ _) as [r| |];
          cbn [bind] in H; try discriminate H.
        destruct (hasAcceptableInput _ _).
        -- apply update_tempo_frame in H. destruct H as (Ht & Hp & _).
           rewrite Ht, Hp. split; reflexivity.
        -- apply Ok_inj in H. subst s'. split; reflexivity.
    + apply Ok_inj in H. subst s'. split; reflexivity.
  - contradiction.
Qed.

Lemma run_reachable (fuel : nat) (evs : list event) :
  forall s s', reachable s -> run fuel evs s = Ok s' -> reachable s'.
Proof.
  induction evs as [|ev evs IH]; intros s s' Hr H.
  - apply Ok_inj in H. subst s'. exact Hr.
  - cbn [run] in H. destruct (handle fuel ev s) as [s1| |] eqn:E;
      cbn [bind] in H; try discriminate H.
    apply (IH s1); [|exact H]. exact (reachable_step fuel ev s s1 Hr E).
Qed.

(* ================================================================== *)
(** * Switching the mode back and forth *)
(* ================================================================== *)

Lemma double_switch_maelzel (fuel : nat) (s : t) :
  consistent s -> mode s = maelzel ->
  exists s1,
    switch_mode (S (S fuel)) s = Ok s1 /\
    mode s1 = precise /\ current_tempo s1 = current_tempo s /\
    switch_mode (S (S fuel)) s1 =
    Ok (mk (current_tempo s) (playing s) maelzel (timer s)
           (setText (str (current_tempo s)) (tempo_indicator s))
           (setText (get_marking s) (traditional_marking s))
           (setVisible true (slider_min s))
           (mkSlider 0 38 (value (slider s)) true true)
           (setVisible true (slider_max s))
           (setVisible false (tempo_prompt s))
           (mkWidget (str (current_tempo s)) false false)
           (validator s) (start_stop_button s)
           (setText "Mode: Maelzel's metronome" (mode_indicator s))).
Proof.
  intros Hc Hm. eexists. split; [exact (switch_mode_maelzel fuel s Hc Hm)|].
  split; [reflexivity|]. split; [reflexivity|].
  destruct (consistent_maelzel s Hc Hm) as (E & _).
  destruct Hc as (_ & _ & Hv & _).
  rewrite switch_mode_precise; [|reflexivity|exact Hv].
  cbn [slider value]. rewrite <- E.
  open_window s. fields. reflexivity.
Qed.

Lemma double_switch_precise (fuel : nat) (s : t) :
  consistent s -> mode s = precise ->
  let x := nth (Z.to_nat (value (slider s))) tempi 0 in
  exists s1,
    switch_mode (S (S fuel)) s = Ok s1 /\
    mode s1 = maelzel /\ current_tempo s1 = x /\
    switch_mode (S (S fuel)) s1 =
    Ok (mk x (playing s) precise (timer s)
           (setText (str x) (tempo_indicator s))
           (setText (get_marking (set_current_tempo x s)) (traditional_marking s))
           (setVisible false (slider_min s))
           (mkSlider 0 38 (value (slider s)) false false)
           (setVisible false (slider_max s))
           (setVisible true (tempo_prompt s))
           (mkWidget (str x) true true)
           (validator s) (start_stop_button s)
           (setText "Mode: Precise tempo" (mode_indicator s))).
Proof.
  intros Hc Hm x.
  assert (Hv : 0 <= value (slider s) <= 38) by (destruct Hc; tauto).
  pose proof (switch_mode_precise (S fuel) s Hm Hv) as H1. cbv zeta in H1.
  fold x in H1. eexists. split; [exact H1|].
  split; [reflexivity|]. split; [reflexivity|].
  pose proof (switch_mode_consistent _ _ _ Hc H1) as Hc1.
  rewrite (switch_mode_maelzel fuel _ Hc1 eq_refl).
  open_window s. fields. reflexivity.
Qed.

Lemma after_reachable (evs : list event) (s : t) :
  after evs = Ok s -> reachable s.
Proof.
  unfold after. intros H. destruct init as [s0| |] eqn:E;
    cbn [bind] in H; try discriminate H.
  exact (run_reachable 2 evs s0 s (reachable_init s0 E) H).
Qed.

(** Every tempo of the validator's range is reached in precise mode: switch
    the mode, type the number, commit. *)
Lemma precise_tempo_reachable (n : Z) :
  20 <= n <= 300 ->
  exists s, reachable s /\ mode s = precise /\ current_tempo s = n.
Proof.
  intros Hn.
  assert (R0 : reachable initial_window) by (apply reachable_init; reflexivity).
  pose proof (reachable_consistent _ R0) as C0.
  pose proof (switch_mode_maelzel 0 initial_window C0 eq_refl) as H1.
  set (s1 := mk _ _ precise _ _ _ _ _ _ _ _ _ _ _) in H1.
  assert (R1 : reachable s1) by exact (reachable_step 2 SwitchMode _ _ R0 H1).
  set (s2 := set_tempo_input (setText (str n) (tempo_input s1)) s1).
  assert (R2 : reachable s2)
    by exact (reachable_step 2 (TextEdited (str n)) s1 s2 R1 eq_refl).
  pose proof (reachable_consistent _ R2) as C2.
  assert (Hacc : hasAcceptableInput (validator s2) (text (tempo_input s2)) = true).
  { change (hasAcceptableInput (mkValidator 20 300) (str n) = true).
    unfold hasAcceptableInput. rewrite int_str. cbn [bottom top].
    apply andb_true_iff. split; apply Z.leb_le; lia. }
  destruct (update_tempo_acceptable 0 s2 C2 eq_refl Hacc)
    as (m & s3 & Hm & _ & Hu & Ht & Hmode & _).
  change (text (tempo_input s2)) with (str n) in Hm. rewrite int_str in Hm.
  apply Ok_inj in Hm. subst m.
  exists s3. split; [|split; assumption].
  apply (reachable_step 2 EditingFinished s2 s3 R2).
  cbn [handle]. change (interactive (tempo_input s2)) with true. cbv iota.
  unfold editing_finished. rewrite Hacc. exact Hu.
Qed.

(* ================================================================== *)
(** * The properties *)
(* ================================================================== *)

(** C1.  [__get_marking] against the specification's table.  The two agree
    at every tempo outside 61..66; on 61..66 the code returns the text
    [Largetto] where the table has [Larghetto].  Moving the slider of the
    initial window to position 11 (tempo 63) puts that text on the label. *)
Theorem get_marking_against_table :
  (forall self : t,
      get_marking self =
      if (60 <? current_tempo self) && (current_tempo self <=? 66)
      then "Largetto"
      else spec_marking (current_tempo self)) /\
  (forall tempo,
      (if (60 <? tempo) && (tempo <=? 66)
       then spec_marking tempo else "Larghetto") = "Larghetto") /\
  (exists s,
      after [SliderMoved 11] = Ok s /\ current_tempo s = 63 /\
      text (traditional_marking s) = "Largetto" /\
      text (traditional_marking s) <> spec_marking (current_tempo s)).
Proof.
  split; [|split].
  - intros self. unfold get_marking, spec_marking, spec_marking_table.
    cbn [spec_lookup]. generalize (current_tempo self) as x. intros x.
    repeat match goal with
           | |- context [?a <=? ?b] =>
               let E := fresh "E" in
               destruct (Z.leb_spec a b) as [E|E]
           | |- context [?a <? ?b] =>
               let E := fresh "E" in
               destruct (Z.ltb_spec a b) as [E|E]
           end; cbn [andb]; try reflexivity; exfalso; lia.
  - intros x. unfold spec_marking, spec_marking_table. cbn [spec_lookup].
    repeat match goal with
           | |- context [?a <=? ?b] =>
               let E := fresh "E" in
               destruct (Z.leb_spec a b) as [E|E]
           | |- context [?a <? ?b] =>
               let E := fresh "E" in
               destruct (Z.ltb_spec a b) as [E|E]
           end; cbn [andb]; try reflexivity; exfalso; lia.
  - eexists. split; [vm_compute; reflexivity|].
    split; [reflexivity|]. split; [reflexivity|]. vm_compute. discriminate.
Qed.

(** At the boundary tempi the specification lists, the code and the table
    give the same marking, the pair 61 and 66 apart. *)
Lemma get_marking_boundaries (s : t) :
  map (fun x => get_marking (set_current_tempo x s))
      [24; 25; 40; 41; 60; 67; 76; 77; 108; 109; 120; 121; 168; 169; 200; 201] =
  ["Larghissimo"; "Grave"; "Grave"; "Largo"; "Largo"; "Adagio"; "Adagio";
   "Andante"; "Andante"; "Moderato"; "Moderato"; "Allegro"; "Allegro";
   "Presto"; "Presto"; "Prestissimo"] /\
  map (fun x => get_marking (set_current_tempo x s)) [61; 66] =
  ["Largetto"; "Largetto"].
Proof. split; reflexivity. Qed.

(** The position [setValue(bisect_left(tempi, tempo))] leaves a slider
    ranging over the table's indices at: it is a valid index; every
    entry left of it is below the tempo; for a tempo up to the last entry
    the entry under it is at or above the tempo, so it is the smallest such
    index; for a tempo above the last entry it is the last index; and the
    position for a table entry is that entry's index. *)
Theorem slider_position_nearest_at_or_above (sl : QSlider) (tempo : Z) :
  minimum sl = 0 ->
  maximum sl = Z.of_nat (List.length tempi) - 1 ->
  let i := slider_position sl tempo in
  getitem tempi (-1) = Ok 208 /\
  0 <= i < Z.of_nat (List.length tempi) /\
  (forall j, 0 <= j < i -> exists y, getitem tempi j = Ok y /\ y < tempo) /\
  (tempo <= 208 -> exists y, getitem tempi i = Ok y /\ tempo <= y) /\
  (208 < tempo -> i = Z.of_nat (List.length tempi) - 1) /\
  (forall k y, getitem tempi k = Ok y -> 0 <= k -> slider_position sl y = k).
Proof.
  intros Hmin Hmax i. rewrite tempi_length in *.
  change (Z.of_nat 39 - 1) with 38 in *. change (Z.of_nat 39) with 39.
  pose proof (slider_position_range sl Hmin Hmax tempo) as Hr. fold i in Hr.
  destruct (bisect_left_spec tempi tempi_sorted tempo) as (Hb & Hlt & Hge).
  rewrite tempi_length in Hb, Hge.
  assert (Hi : i = Z.min 38 (Z.of_nat (bisect_left tempi tempo)))
    by apply (slider_position_eq sl Hmin Hmax).
  split; [reflexivity|]. split; [lia|]. split; [|split; [|split]].
  - intros j Hj. exists (nth (Z.to_nat j) tempi 0).
    split; [apply getitem_nth; rewrite tempi_length; lia|].
    apply Hlt. lia.
  - intros Ht. destruct (slider_position_low sl Hmin Hmax tempo Ht) as (E & Hk).
    fold i in E. exists (nth (Z.to_nat i) tempi 0).
    split; [apply getitem_nth; rewrite tempi_length; lia|].
    apply Hge. lia.
  - intros Ht. exact (proj2 (slider_position_high sl Hmin Hmax tempo Ht)).
  - intros k y Hk Hk0.
    assert (Hk39 : k < 39).
    { destruct (Z.ltb_spec k 39) as [L|L]; [exact L|].
      unfold getitem in Hk. rewrite tempi_length in Hk.
      replace (k <? 0) with false in Hk by (symmetry; apply Z.ltb_ge; lia).
      replace (k <? Z.of_nat 39) with false in Hk
        by (symmetry; apply Z.ltb_ge; exact L).
      rewrite andb_false_r in Hk. discriminate Hk. }
    rewrite getitem_nth in Hk by (rewrite tempi_length; lia).
    apply Ok_inj in Hk. subst y.
    rewrite (slider_position_entry sl Hmin Hmax) by lia. lia.
Qed.

Lemma slider_position_nearest_at_or_above_witness :
  minimum (slider initial_window) = 0 /\
  maximum (slider initial_window) = Z.of_nat (List.length tempi) - 1 /\
  0 <= slider_position (slider initial_window) 250 < Z.of_nat (List.length tempi).
Proof.
  split; [reflexivity|]. split; [reflexivity|].
  exact (proj1 (proj2 (slider_position_nearest_at_or_above
                         (slider initial_window) 250 eq_refl eq_refl))).
Defined.

(** C2.  [__update_tempo] in precise mode, on a slider ranging over the
    table's indices and a line edit whose text reads as the integer
    [tempo]: it returns, with that tempo set and the slider at the position
    [i] of the nearest entry at or above it.  [i] is a valid index; every
    entry left of [i] is below the tempo and, for a tempo up to the last
    entry, 208, the entry at [i] is at or above it, so [i] is the smallest
    such index; for a tempo above 208, [i] is the last index; and for a
    tempo that is the entry at index [k], [i] is [k]. *)
Theorem update_tempo_positions_slider (fuel : nat) (s : t) (tempo : Z) :
  mode s = precise ->
  minimum (slider s) = 0 ->
  maximum (slider s) = Z.of_nat (List.length tempi) - 1 ->
  int (text (tempo_input s)) = Ok tempo ->
  exists s',
    update_tempo (S (S fuel)) s = Ok s' /\
    current_tempo s' = tempo /\
    value (slider s') = slider_position (slider s) tempo /\
    0 <= value (slider s') < Z.of_nat (List.length tempi) /\
    (forall j, 0 <= j < value (slider s') ->
               exists y, getitem tempi j = Ok y /\ y < tempo) /\
    (exists y, getitem tempi (value (slider s')) = Ok y /\
               (tempo <= 208 -> tempo <= y)) /\
    getitem tempi (-1) = Ok 208 /\
    (208 < tempo -> value (slider s') = Z.of_nat (List.length tempi) - 1) /\
    (forall k, 0 <= k -> getitem tempi k = Ok tempo -> value (slider s') = k).
Proof.
  intros Hm Hmin Hmax Ht.
  assert (Hx : (if (text (tempo_input s) =? "")%string
                then getitem tempi 0 else int (text (tempo_input s))) = Ok tempo).
  { destruct (text (tempo_input s) =? "")%string eqn:E; [|exact Ht].
    apply String.eqb_eq in E. rewrite E in Ht. discriminate Ht. }
  eexists. split; [exact (update_tempo_precise fuel s tempo Hm Hx)|].
  split; [reflexivity|].
  change (value (slider (shown (set_slider
            (fst (setValue (Z.of_nat (bisect_left tempi tempo)) (slider s)))
            (set_current_tempo tempo s)))))
    with (slider_position (slider s) tempo).
  destruct (slider_position_nearest_at_or_above (slider s) tempo Hmin Hmax)
    as (Hlast & Hrange & Hleft & Hlow & Hhigh & Hentry).
  split; [reflexivity|]. split; [exact Hrange|]. split; [exact Hleft|].
  split.
  - rewrite tempi_length in Hrange.
    exists (nth (Z.to_nat (slider_position (slider s) tempo)) tempi 0).
    split; [apply getitem_nth; rewrite tempi_length; exact Hrange|].
    intros Hle. destruct (Hlow Hle) as (y & Hy & Hty).
    rewrite getitem_nth in Hy by (rewrite tempi_length; exact Hrange).
    apply Ok_inj in Hy. rewrite Hy. exact Hty.
  - split; [exact Hlast|]. split; [exact Hhigh|].
    intros k Hk Hget. exact (Hentry k tempo Hget Hk).
Qed.

Lemma update_tempo_positions_slider_witness :
  mode precise_typed_250 = precise /\
  minimum (slider precise_typed_250) = 0 /\
  maximum (slider precise_typed_250) = Z.of_nat (List.length tempi) - 1 /\
  int (text (tempo_input precise_typed_250)) = Ok 250 /\
  value (slider precise_typed_250) = 0 /\
  exists s',
    update_tempo 2 precise_typed_250 = Ok s' /\
    current_tempo s' = 250 /\ value (slider s') = 38.
Proof.
  split; [reflexivity|]. split; [reflexivity|]. split; [reflexivity|].
  split; [reflexivity|]. split; [reflexivity|].
  destruct (update_tempo_positions_slider 0 precise_typed_250 250
              eq_refl eq_refl eq_refl eq_refl)
    as (s' & H & Ht & _ & _ & _ & _ & _ & Hhigh & _).
  exists s'. split; [exact H|]. split; [exact Ht|].
  apply Hhigh. lia.
Defined.

(** C3.  Switching the mode on a reachable window.  From Maelzel to precise
    the tempo is carried over unchanged.  From precise to Maelzel the tempo
    becomes the table entry at the slider position of the old tempo.
    Switching twice gives the entry at the slider position of the starting
    tempo, which for a Maelzel start is the starting tempo itself, and
    switching twice once more changes nothing at all. *)
Theorem switch_mode_round_trip (fuel : nat) (s : t) :
  reachable s ->
  exists s1 s2,
    switch_mode (S (S fuel)) s = Ok s1 /\
    switch_mode (S (S fuel)) s1 = Ok s2 /\
    (mode s = maelzel ->
     mode s1 = precise /\ current_tempo s1 = current_tempo s /\
     current_tempo s2 = current_tempo s) /\
    (mode s = precise ->
     mode s1 = maelzel /\
     getitem tempi (slider_position (slider s) (current_tempo s)) =
     Ok (current_tempo s1)) /\
    mode s2 = mode s /\
    getitem tempi (slider_position (slider s) (current_tempo s)) =
    Ok (current_tempo s2) /\
    (s3 <- switch_mode (S (S fuel)) s2 ;; switch_mode (S (S fuel)) s3) = Ok s2.
Proof.
  intros Hr. pose proof (reachable_consistent s Hr) as Hc.
  assert (Hv : 0 <= value (slider s) <= 38) by (destruct Hc; tauto).
  destruct (mode s) eqn:Hm.
  - destruct (double_switch_maelzel fuel s Hc Hm) as (s1 & H1 & Hm1 & Ht1 & H2).
    destruct (consistent_maelzel s Hc Hm) as (E & Hpos).
    exists s1. eexists. split; [exact H1|]. split; [exact H2|].
    split; [intros _; repeat split; assumption|]. split; [discriminate|].
    split; [reflexivity|].
    split.
    { rewrite Hpos. cbn [current_tempo]. rewrite E.
      apply getitem_nth. rewrite tempi_length. lia. }
    pose proof (switch_mode_consistent _ _ _ Hc H1) as Hc1.
    pose proof (switch_mode_consistent _ _ _ Hc1 H2) as Hc2.
    destruct (double_switch_maelzel fuel _ Hc2 eq_refl) as (s3 & H3 & _ & _ & H4).
    rewrite H3. cbn [bind]. rewrite H4.
    open_window s. fields. reflexivity.
  - pose proof (double_switch_precise fuel s Hc Hm) as D. cbv zeta in D.
    destruct D as (s1 & H1 & Hm1 & Ht1 & H2).
    assert (Hpos : slider_position (slider s) (current_tempo s) = value (slider s)).
    { destruct Hc as (_ & _ & _ & _ & Hmode). rewrite Hm in Hmode.
      symmetry. tauto. }
    assert (Hget : getitem tempi (value (slider s)) =
                   Ok (nth (Z.to_nat (value (slider s))) tempi 0))
      by (apply getitem_nth; rewrite tempi_length; lia).
    exists s1. eexists. split; [exact H1|]. split; [exact H2|].
    split; [discriminate|].
    split; [intros _; split; [exact Hm1|]; rewrite Hpos, Ht1; exact Hget|].
    split; [reflexivity|].
    split; [rewrite Hpos; exact Hget|].
    pose proof (switch_mode_consistent _ _ _ Hc H1) as Hc1.
    pose proof (switch_mode_consistent _ _ _ Hc1 H2) as Hc2.
    pose proof (double_switch_precise fuel _ Hc2 eq_refl) as D'. cbv zeta in D'.
    destruct D' as (s3 & H3 & _ & _ & H4).
    rewrite H3. cbn [bind]. rewrite H4.
    open_window s. fields. reflexivity.
Qed.

Lemma switch_mode_round_trip_witness :
  reachable precise_250_playing /\
  exists s1 s2,
    switch_mode 2 precise_250_playing = Ok s1 /\
    switch_mode 2 s1 = Ok s2 /\
    current_tempo precise_250_playing = 250 /\
    current_tempo s1 = 208 /\ current_tempo s2 = 208 /\
    (s3 <- switch_mode 2 s2 ;; switch_mode 2 s3) = Ok s2.
Proof.
  assert (R : reachable precise_250_playing)
    by (apply (after_reachable
                 [SwitchMode; TextEdited "250"; EditingFinished;
                  StartStopPressed]); reflexivity).
  split; [exact R|].
  destruct (switch_mode_round_trip 0 precise_250_playing R)
    as (s1 & s2 & H1 & H2 & _ & HP & _ & Hg & Hid).
  exists s1, s2. split; [exact H1|]. split; [exact H2|].
  split; [reflexivity|].
  destruct (HP eq_refl) as (_ & Hg1).
  change (getitem tempi
            (slider_position (slider precise_250_playing)
               (current_tempo precise_250_playing))) with (Ok 208) in Hg, Hg1.
  apply Ok_inj in Hg, Hg1.
  split; [symmetry; exact Hg1|]. split; [symmetry; exact Hg|exact Hid].
Defined.

(** C4.  The clamp law of [fixup] for the validator of the window, range
    20 to 300: the decimal text of an integer below 20 becomes the text
    20, of one above 300 the text 300, any other comes back as it is, and
    the empty text becomes the text 20. *)
Theorem fixup_clamp_law (fuel : nat) (n : Z) :
  TempoValidator.fixup (S (S fuel)) (mkValidator 20 300) (str n) =
  Ok (if n <? 20 then "20" else if 300 <? n then "300" else str n) /\
  TempoValidator.fixup (S (S fuel)) (mkValidator 20 300) "" = Ok "20".
Proof.
  split.
  - rewrite (fixup_parsed (mkValidator 20 300)) with (n := n).
    + reflexivity.
    + cbn [bottom top]. lia.
    + apply int_str.
  - rewrite fixup_empty; [reflexivity|cbn [bottom top]; lia].
Qed.

(** C5.  The initial window is in Maelzel mode at the first table entry,
    40.  In every window reached from it, the tempo in Maelzel mode is an
    entry of the table, hence within 40 and 208, the tempo in precise mode
    is within 20 and 300, and the tempo is positive, so the division that
    computes the tick interval does not raise. *)
Theorem tempo_invariant (s : t) :
  reachable s ->
  (exists s0,
      init = Ok s0 /\ mode s0 = maelzel /\
      getitem tempi 0 = Ok (current_tempo s0) /\ current_tempo s0 = 40) /\
  (mode s = maelzel ->
   In (current_tempo s) tempi /\ 40 <= current_tempo s <= 208) /\
  (mode s = precise -> 20 <= current_tempo s <= 300) /\
  0 < current_tempo s /\
  floordiv 60000 (current_tempo s) = Ok (60000 / current_tempo s).
Proof.
  intros Hr. pose proof (reachable_consistent s Hr) as Hc.
  destruct (consistent_tempo_range s Hc) as (Hrange & Hmael).
  split; [exists initial_window; repeat split; reflexivity|].
  split; [exact Hmael|]. split; [intros _; exact Hrange|]. split; [lia|].
  unfold floordiv.
  replace (current_tempo s =? 0) with false by (symmetry; apply Z.eqb_neq; lia).
  reflexivity.
Qed.

Lemma tempo_invariant_witness :
  reachable precise_250_playing /\
  mode precise_250_playing = precise /\
  20 <= current_tempo precise_250_playing <= 300.
Proof.
  assert (R : reachable precise_250_playing)
    by (apply (after_reachable
                 [SwitchMode; TextEdited "250"; EditingFinished;
                  StartStopPressed]); reflexivity).
  split; [exact R|]. split; [reflexivity|].
  destruct (tempo_invariant precise_250_playing R) as (_ & _ & H & _).
  exact (H eq_refl).
Defined.

(* ================================================================== *)
(** * Starting and stopping *)
(* ================================================================== *)

Lemma start_metronome (s : t) :
  playing s = false -> current_tempo s <> 0 ->
  start_stop_metronome s =
  Ok (mk (current_tempo s) true (mode s)
         (mkTimeLine (duration (timer s)) (loopCount (timer s))
                     (60000 / current_tempo s) Running)
         (tempo_indicator s) (traditional_marking s) (slider_min s)
         (setSliderEnabled false (slider s)) (slider_max s) (tempo_prompt s)
         (tempo_input s) (validator s)
         (setText "Stop" (start_stop_button s)) (mode_indicator s)).
Proof.
  intros Hp Ht. unfold start_stop_metronome, floordiv. rewrite Hp.
  cbn [negb]. cbv zeta.
  change (current_tempo (set_slider ?a (set_start_stop_button ?b s)))
    with (current_tempo s).
  replace (current_tempo s =? 0) with false by (symmetry; apply Z.eqb_neq; exact Ht).
  open_window s. fields. reflexivity.
Qed.

Lemma stop_metronome (s : t) :
  playing s = true ->
  start_stop_metronome s =
  Ok (mk (current_tempo s) false (mode s)
         (mkTimeLine (duration (timer s)) (loopCount (timer s))
                     (updateInterval (timer s)) NotRunning)
         (tempo_indicator s) (traditional_marking s) (slider_min s)
         (setSliderEnabled true (slider s)) (slider_max s) (tempo_prompt s)
         (tempo_input s) (validator s)
         (setText "Start" (start_stop_button s)) (mode_indicator s)).
Proof.
  intros Hp. unfold start_stop_metronome. rewrite Hp. cbn [negb].
  open_window s. fields. reflexivity.
Qed.

(** C6.  Pressing start on a stopped window sets the timer's update
    interval to 60000 // current_tempo and starts the timer: 500 for tempo
    120, 1500 for tempo 40, 1000 for tempo 60. *)
Theorem tick_interval (s : t) :
  playing s = false ->
  current_tempo s <> 0 ->
  exists s',
    start_stop_metronome s = Ok s' /\
    floordiv 60000 (current_tempo s) = Ok (updateInterval (timer s')) /\
    updateInterval (timer s') = 60000 / current_tempo s /\
    state (timer s') = Running /\
    (current_tempo s = 120 -> updateInterval (timer s') = 500) /\
    (current_tempo s = 40 -> updateInterval (timer s') = 1500) /\
    (current_tempo s = 60 -> updateInterval (timer s') = 1000).
Proof.
  intros Hp Ht. eexists. split; [exact (start_metronome s Hp Ht)|].
  cbn [timer updateInterval state]. unfold floordiv.
  replace (current_tempo s =? 0) with false by (symmetry; apply Z.eqb_neq; exact Ht).
  repeat split; try reflexivity; intros ->; reflexivity.
Qed.

Lemma tick_interval_witness :
  playing initial_window = false /\
  current_tempo initial_window = 40 /\
  exists s',
    start_stop_metronome initial_window = Ok s' /\
    updateInterval (timer s') = 1500.
Proof.
  split; [reflexivity|]. split; [reflexivity|].
  destruct (tick_interval initial_window eq_refl)
    as (s' & H & _ & _ & _ & _ & H40 & _).
  - discriminate.
  - exists s'. split; [exact H|exact (H40 eq_refl)].
Defined.

(** [__update_tempo] itself, run in precise mode on an empty line edit,
    sets the tempo to the first table entry, 40, not to the lower bound 20
    of the window's validator. *)
Theorem update_tempo_empty_text (fuel : nat) (s : t) :
  mode s = precise ->
  text (tempo_input s) = "" ->
  exists s',
    update_tempo (S (S fuel)) s = Ok s' /\
    getitem tempi 0 = Ok (current_tempo s') /\
    current_tempo s' = 40 /\
    current_tempo s' <> bottom (mkValidator 20 300).
Proof.
  intros Hm Ht. eexists.
  split; [apply (update_tempo_precise fuel s 40 Hm); rewrite Ht; reflexivity|].
  repeat split. discriminate.
Qed.

Lemma update_tempo_empty_text_witness :
  mode precise_empty_text = precise /\
  text (tempo_input precise_empty_text) = "" /\
  exists s', update_tempo 2 precise_empty_text = Ok s' /\ current_tempo s' = 40.
Proof.
  split; [reflexivity|]. split; [reflexivity|].
  destruct (update_tempo_empty_text 0 precise_empty_text eq_refl eq_refl)
    as (s' & H & _ & H40 & _).
  exists s'. split; [exact H|exact H40].
Defined.

(** C8.  While the metronome is playing, no event other than the
    start/stop button changes the timer, its update interval included, or
    the playing flag, whatever it does to the tempo.  The interval is
    written only by a start, from the tempo of that moment; a stop keeps
    it. *)
Theorem tempo_change_keeps_timer (fuel : nat) (ev : event) (s s' : t) :
  playing s = true ->
  ev <> StartStopPressed ->
  handle fuel ev s = Ok s' ->
  timer s' = timer s /\
  updateInterval (timer s') = updateInterval (timer s) /\
  playing s' = true /\
  exists s1,
    handle fuel StartStopPressed s' = Ok s1 /\
    playing s1 = false /\
    updateInterval (timer s1) = updateInterval (timer s) /\
    (current_tempo s1 <> 0 ->
     exists s2,
       handle fuel StartStopPressed s1 = Ok s2 /\
       playing s2 = true /\
       updateInterval (timer s2) = 60000 / current_tempo s').
Proof.
  intros Hp Hev H. destruct (handle_frame fuel ev s s' Hev H) as (Ht & Hp').
  rewrite Hp in Hp'.
  split; [exact Ht|]. split; [rewrite Ht; reflexivity|]. split; [exact Hp'|].
  cbn [handle]. eexists. split; [exact (stop_metronome s' Hp')|].
  cbn [playing timer updateInterval current_tempo]. rewrite Ht.
  split; [reflexivity|]. split; [reflexivity|].
  intros Hne. eexists. split; [apply start_metronome; [reflexivity|exact Hne]|].
  split; reflexivity.
Qed.

Lemma tempo_change_keeps_timer_witness :
  playing precise_250_playing = true /\
  SwitchMode <> StartStopPressed /\
  handle 2 SwitchMode precise_250_playing = Ok switched_while_playing /\
  current_tempo precise_250_playing = 250 /\
  current_tempo switched_while_playing = 208 /\
  updateInterval (timer switched_while_playing) = 240 /\
  playing switched_while_playing = true.
Proof.
  assert (Hev : SwitchMode <> StartStopPressed) by discriminate.
  assert (H : handle 2 SwitchMode precise_250_playing = Ok switched_while_playing)
    by (vm_compute; reflexivity).
  split; [reflexivity|]. split; [exact Hev|]. split; [exact H|].
  split; [reflexivity|]. split; [reflexivity|].
  destruct (tempo_change_keeps_timer 2 SwitchMode precise_250_playing
              switched_while_playing eq_refl Hev H) as (_ & Hi & Hp & _).
  split; [exact Hi|exact Hp].
Defined.

(** The button is a toggle: the press that follows a stop is handled by
    the start branch.  Stopping [playing_window] gives [stopped_window],
    and one more press does not leave it as it is. *)
Lemma second_press_after_stop_restarts :
  ~ (forall s s1,
        playing s = true ->
        start_stop_metronome s = Ok s1 ->
        start_stop_metronome s1 = Ok s1).
Proof.
  intros H.
  assert (H1 : start_stop_metronome playing_window = Ok stopped_window)
    by (vm_compute; reflexivity).
  specialize (H playing_window stopped_window eq_refl H1).
  rewrite (start_metronome stopped_window) in H by (vm_compute; congruence).
  apply Ok_inj in H. apply (f_equal playing) in H. discriminate H.
Qed.

(** C9.  The playback controller.  [__start_stop_metronome] runs the start
    on a stopped window and the stop on a playing one.  The window starts
    stopped.  The start takes a stopped window to a running one: the flag
    set, the timer running at 60000 // current_tempo.  The stop takes a
    running window to a stopped one: the flag cleared, the timer, and with
    it the repeating callback, stopped.  So a start followed by a stop is
    back at stopped.  The stop run a second time, on the window the first
    left, changes nothing. *)
Theorem playback_state_machine (s : t) :
  current_tempo s <> 0 ->
  start_stop_metronome s =
  (if playing s then Ok (stop_playback s) else start_playback s) /\
  (exists s0,
      init = Ok s0 /\ playing s0 = false /\ state (timer s0) = NotRunning) /\
  (playing s = false ->
   exists s1,
     start_stop_metronome s = Ok s1 /\
     playing s1 = true /\ state (timer s1) = Running /\
     updateInterval (timer s1) = 60000 / current_tempo s /\
     start_stop_metronome s1 = Ok (stop_playback s1) /\
     playing (stop_playback s1) = false /\
     state (timer (stop_playback s1)) = NotRunning) /\
  (playing s = true ->
   start_stop_metronome s = Ok (stop_playback s) /\
   playing (stop_playback s) = false /\
   state (timer (stop_playback s)) = NotRunning /\
   updateInterval (timer (stop_playback s)) = updateInterval (timer s)) /\
  stop_playback (stop_playback s) = stop_playback s /\
  stop (stop (timer s)) = stop (timer s).
Proof.
  intros Ht.
  split; [unfold start_stop_metronome; destruct (playing s); reflexivity|].
  split; [exists initial_window; repeat split; reflexivity|].
  split; [|split; [|split]].
  - intros Hp. eexists.
    split; [exact (start_metronome s Hp Ht)|].
    split; [reflexivity|]. split; [reflexivity|]. split; [reflexivity|].
    split; [unfold start_stop_metronome; reflexivity|].
    split; reflexivity.
  - intros Hp.
    split; [unfold start_stop_metronome; rewrite Hp; reflexivity|].
    repeat split; reflexivity.
  - unfold stop_playback. open_window s. fields. reflexivity.
  - reflexivity.
Qed.

Lemma playback_state_machine_witness :
  current_tempo initial_window <> 0 /\
  playing initial_window = false /\
  start_stop_metronome initial_window = Ok playing_window /\
  start_stop_metronome playing_window = Ok stopped_window /\
  stop_playback playing_window = stopped_window /\
  stop_playback stopped_window = stopped_window.
Proof.
  assert (Ht : current_tempo initial_window <> 0) by (vm_compute; congruence).
  split; [exact Ht|]. split; [reflexivity|].
  destruct (playback_state_machine initial_window Ht) as (_ & _ & H & _).
  destruct (H eq_refl) as (s1 & H1 & _ & _ & _ & H2 & _).
  assert (E1 : start_stop_metronome initial_window = Ok playing_window)
    by (vm_compute; reflexivity).
  assert (s1 = playing_window) by congruence. subst s1.
  assert (E2 : stop_playback playing_window = stopped_window)
    by (vm_compute; reflexivity).
  rewrite E2 in H2.
  split; [exact H1|]. split; [exact H2|]. split; [exact E2|].
  assert (Ht2 : current_tempo playing_window <> 0) by (vm_compute; congruence).
  destruct (playback_state_machine playing_window Ht2) as (_ & _ & _ & _ & Hi & _).
  rewrite E2 in Hi. exact Hi.
Defined.

(** C10.  [fixup] on a validator with bottom <= top.  On the empty text and
    on every text [int] reads, it returns, after at most one replacement in
    its loop, a text the validator accepts.  On a text that is not empty
    and that [int] does not read, the [int] of the loop condition raises
    [ValueError], and so does [fixup]. *)
Theorem fixup_total (self : QIntValidator) (s : string) :
  bottom self <= top self ->
  ((s = "" \/ exists n, int s = Ok n) ->
   exists r count,
     (count <= 1)%nat /\
     hasAcceptableInput self r = true /\
     forall fuel,
       TempoValidator.fixup_counted (S (S fuel)) self s = Ok (r, count) /\
       TempoValidator.fixup (S (S fuel)) self s = Ok r) /\
  (s <> "" -> (forall n, int s <> Ok n) ->
   int s = Raise ValueError /\
   forall fuel,
     TempoValidator.fixup_counted (S fuel) self s = Raise ValueError /\
     TempoValidator.fixup (S fuel) self s = Raise ValueError).
Proof.
  intros Hbt. split.
  - intros [->|(n & Hn)].
    + exists (str (bottom self)), 0%nat. split; [lia|].
      split; [exact (fixup_acceptable self 1 "" _ (fixup_empty self Hbt 0))|].
      intros fuel. split; [apply fixup_counted_empty, Hbt|apply fixup_empty, Hbt].
    + pose proof (fixup_counted_parsed self Hbt 0 s n Hn) as Hc.
      pose proof (fixup_parsed self Hbt 0 s n Hn) as Hf.
      destruct (TempoValidator.fixup_counted 2 self s) as [[r count]| |] eqn:E;
        try (destruct (n <? bottom self); [|destruct (top self <? n)];
             discriminate Hc).
      exists r, count.
      split; [|split].
      * apply Ok_inj in Hc. destruct (n <? bottom self);
          [|destruct (top self <? n)]; inversion Hc; lia.
      * apply (fixup_acceptable self 2 s). unfold TempoValidator.fixup.
        rewrite E. reflexivity.
      * intros fuel.
        rewrite (fixup_counted_parsed self Hbt fuel s n Hn).
        rewrite (fixup_parsed self Hbt fuel s n Hn).
        rewrite Hc. split; [reflexivity|].
        apply Ok_inj in Hc. destruct (n <? bottom self);
          [|destruct (top self <? n)]; inversion Hc; reflexivity.
  - intros Hne Hno.
    assert (Hs : int s = Raise ValueError).
    { destruct (int_cases s) as [(n & Hn)|Hr]; [|exact Hr].
      exfalso. exact (Hno n Hn). }
    split; [exact Hs|]. intros fuel.
    pose proof (fixup_counted_unparsed fuel self s Hne Hs) as Hc.
    split; [exact Hc|]. unfold TempoValidator.fixup. rewrite Hc. reflexivity.
Qed.

Lemma fixup_total_witness :
  bottom (mkValidator 20 300) <= top (mkValidator 20 300) /\
  (exists n, int "500" = Ok n) /\
  (exists r count,
      (count <= 1)%nat /\
      TempoValidator.fixup_counted 2 (mkValidator 20 300) "500" = Ok (r, count)) /\
  "x" <> "" /\ (forall n, int "x" <> Ok n) /\
  TempoValidator.fixup 1 (mkValidator 20 300) "x" = Raise ValueError.
Proof.
  assert (Hbt : bottom (mkValidator 20 300) <= top (mkValidator 20 300))
    by (cbn; lia).
  assert (H500 : exists n, int "500" = Ok n) by (exists 500; reflexivity).
  assert (Hx : "x" <> "") by discriminate.
  assert (Hno : forall n, int "x" <> Ok n) by (intros n; vm_compute; discriminate).
  split; [exact Hbt|]. split; [exact H500|].
  split.
  - destruct (fixup_total (mkValidator 20 300) "500" Hbt) as (H & _).
    destruct (H (or_intror H500)) as (r & count & Hle & _ & Hf).
    exists r, count. split; [exact Hle|exact (proj1 (Hf 0%nat))].
  - split; [exact Hx|]. split; [exact Hno|].
    destruct (fixup_total (mkValidator 20 300) "x" Hbt) as (_ & H).
    destruct (H Hx Hno) as (_ & Hf). exact (proj2 (Hf 0%nat)).
Defined.

(* ================================================================== *)
(** * Further properties of the tempo table and the slider position *)
(* ================================================================== *)

Lemma getitem_range (a : list Z) (i : Z) :
  let len := Z.of_nat (List.length a) in
  (- len <= i < len /\
   getitem a i = Ok (nth (Z.to_nat (if i <? 0 then i + len else i)) a 0)) \/
  ((i < - len \/ len <= i) /\ getitem a i = Raise IndexError).
Proof.
  intros len. unfold getitem. fold len.
  destruct (Z.ltb_spec i 0) as [Hneg|Hpos].
  - destruct (Z.leb_spec 0 (i + len)) as [H0|H0]; cbn [andb].
    + replace (i + len <? len) with true by (symmetry; apply Z.ltb_lt; lia).
      left. split; [lia|].
      destruct (nth_error a (Z.to_nat (i + len))) as [x|] eqn:E.
      * rewrite (nth_error_nth _ _ _ E). reflexivity.
      * apply nth_error_None in E. lia.
    + right. split; [lia|reflexivity].
  - replace (0 <=? i) with true by (symmetry; apply Z.leb_le; lia). cbn [andb].
    destruct (Z.ltb_spec i len) as [Hlt|Hge].
    + left. split; [lia|].
      destruct (nth_error a (Z.to_nat i)) as [x|] eqn:E.
      * rewrite (nth_error_nth _ _ _ E). reflexivity.
      * apply nth_error_None in E. lia.
    + right. split; [lia|reflexivity].
Qed.

(** X1.  The tempo table has 39 entries, reads 40 at its first and 208 at
    its last index, and is strictly increasing.  Indexing it succeeds
    exactly on -39 .. 38, with an entry between 40 and 208, and raises
    [IndexError] everywhere else. *)
Theorem tempi_table (i j : Z) :
  0 <= i < j ->
  j < 39 ->
  List.length tempi = 39%nat /\
  getitem tempi 0 = Ok 40 /\
  getitem tempi (-1) = Ok 208 /\
  (exists x y, getitem tempi i = Ok x /\ getitem tempi j = Ok y /\ x < y) /\
  (forall k,
      (-39 <= k < 39 /\ exists x, getitem tempi k = Ok x /\ 40 <= x <= 208) \/
      ((k < -39 \/ 39 <= k) /\ getitem tempi k = Raise IndexError)).
Proof.
  intros Hij Hj.
  split; [reflexivity|]. split; [reflexivity|]. split; [reflexivity|]. split.
  - exists (nth (Z.to_nat i) tempi 0), (nth (Z.to_nat j) tempi 0).
    split; [apply getitem_nth; rewrite tempi_length; lia|].
    split; [apply getitem_nth; rewrite tempi_length; lia|].
    apply (StronglySorted_nth_lt tempi tempi_sorted). rewrite tempi_length. lia.
  - intros k. pose proof (getitem_range tempi k) as H. cbv zeta in H.
    rewrite tempi_length in H. change (Z.of_nat 39) with 39 in H.
    destruct H as [(Hk & H)|(Hk & H)]; [left|right; split; assumption].
    split; [exact Hk|]. eexists. split; [exact H|]. apply tempi_nth_bounds.
    destruct (Z.ltb_spec k 0); lia.
Qed.

Lemma tempi_table_witness :
  0 <= 11 < 12 /\ 12 < 39 /\
  exists x y, getitem tempi 11 = Ok x /\ getitem tempi 12 = Ok y /\ x < y.
Proof.
  assert (H1 : 0 <= 11 < 12) by lia. assert (H2 : 12 < 39) by lia.
  split; [exact H1|]. split; [exact H2|].
  exact (proj1 (proj2 (proj2 (proj2 (tempi_table 11 12 H1 H2))))).
Defined.

Lemma bisect_left_mono (a : list Z) (x y : Z) :
  StronglySorted Z.lt a -> x <= y -> (bisect_left a x <= bisect_left a y)%nat.
Proof.
  intros Hs Hxy.
  destruct (bisect_left_spec a Hs x) as (Hbx & Hltx & _).
  destruct (bisect_left_spec a Hs y) as (_ & _ & Hgey).
  destruct (Nat.le_gt_cases (bisect_left a x) (bisect_left a y)) as [H|H];
    [exact H|].
  specialize (Hltx _ H). specialize (Hgey (bisect_left a y)). lia.
Qed.

(** X2.  Snapping a tempo to the table through the slider is monotone and
    idempotent: a larger tempo never gets a smaller slider position, the
    entry under the position is at or above the tempo (and is 208 for any
    tempo above the table), and looking that entry up again gives the same
    position. *)
Theorem slider_snap_monotone_idempotent (sl : QSlider) (t1 t2 : Z) :
  minimum sl = 0 ->
  maximum sl = 38 ->
  t1 <= t2 ->
  slider_position sl t1 <= slider_position sl t2 /\
  exists y,
    getitem tempi (slider_position sl t1) = Ok y /\
    slider_position sl y = slider_position sl t1 /\
    Z.min t1 208 <= y /\
    (208 < t1 -> y = 208).
Proof.
  intros Hmin Hmax Hle.
  rewrite !(slider_position_eq sl Hmin Hmax).
  pose proof (bisect_left_mono tempi t1 t2 tempi_sorted Hle) as Hm.
  split; [lia|].
  pose proof (slider_position_range sl Hmin Hmax t1) as Hr.
  rewrite (slider_position_eq sl Hmin Hmax) in Hr.
  set (i := Z.min 38 (Z.of_nat (bisect_left tempi t1))) in *.
  exists (nth (Z.to_nat i) tempi 0).
  split; [apply getitem_nth; rewrite tempi_length; lia|].
  split.
  - rewrite (slider_position_entry sl Hmin Hmax) by lia. lia.
  - assert (Hb : 40 <= nth (Z.to_nat i) tempi 0 <= 208)
      by (apply tempi_nth_bounds; lia).
    destruct (Z.le_gt_cases t1 208) as [Hlow|Hhigh].
    + destruct (slider_position_low sl Hmin Hmax t1 Hlow) as (E & Hk).
      rewrite (slider_position_eq sl Hmin Hmax) in E. fold i in E.
      destruct (bisect_left_spec tempi tempi_sorted t1) as (_ & _ & Hge).
      specialize (Hge (Z.to_nat i)). rewrite tempi_length in Hge.
      split; [lia|lia].
    + destruct (slider_position_high sl Hmin Hmax t1) as (_ & E); [lia|].
      rewrite (slider_position_eq sl Hmin Hmax) in E. fold i in E.
      rewrite E. change (nth (Z.to_nat 38) tempi 0) with 208.
      split; [lia|reflexivity].
Qed.

Lemma slider_snap_monotone_idempotent_witness :
  minimum (slider initial_window) = 0 /\
  maximum (slider initial_window) = 38 /\
  61 <= 250 /\
  slider_position (slider initial_window) 61 <=
  slider_position (slider initial_window) 250.
Proof.
  split; [reflexivity|]. split; [reflexivity|]. split; [lia|].
  refine (proj1 (slider_snap_monotone_idempotent
                   (slider initial_window) 61 250 eq_refl eq_refl _)).
  lia.
Defined.

(* ================================================================== *)
(** * Further properties of [TempoValidator.fixup] *)
(* ================================================================== *)

(** X3.  Whatever [fixup] returns, for any range and any input, is a text
    the validator accepts, and [fixup] leaves such a text as it is, without
    a replacement: applying it twice is applying it once. *)
Theorem fixup_idempotent (fuel fuel' : nat) (self : QIntValidator)
  (s r : string) :
  TempoValidator.fixup fuel self s = Ok r ->
  hasAcceptableInput self r = true /\
  TempoValidator.fixup_counted (S fuel') self r = Ok (r, 0%nat) /\
  TempoValidator.fixup (S fuel') self r = Ok r.
Proof.
  intros H. pose proof (fixup_acceptable self fuel s r H) as Hacc.
  split; [exact Hacc|].
  destruct (acceptable_range self r Hacc) as (n & Hn & Hr & Hne).
  assert (E : TempoValidator.fixup_counted (S fuel') self r = Ok (r, 0%nat)).
  { unfold TempoValidator.fixup_counted. rewrite Hne.
    cbn [TempoValidator.fixup_loop]. rewrite Hn. cbn [bind].
    replace (bottom self <=? n) with true by (symmetry; apply Z.leb_le; lia).
    replace (n <=? top self) with true by (symmetry; apply Z.leb_le; lia).
    reflexivity. }
  split; [exact E|]. unfold TempoValidator.fixup. rewrite E. reflexivity.
Qed.

Lemma fixup_idempotent_witness :
  TempoValidator.fixup 2 (mkValidator 20 300) "7" = Ok "20" /\
  TempoValidator.fixup 1 (mkValidator 20 300) "20" = Ok "20".
Proof.
  assert (H : TempoValidator.fixup 2 (mkValidator 20 300) "7" = Ok "20")
    by reflexivity.
  split; [exact H|].
  exact (proj2 (proj2 (fixup_idempotent 2 0 (mkValidator 20 300) "7" "20" H))).
Defined.

Lemma fixup_loop_empty_range (self : QIntValidator) (fuel : nat) :
  top self < bottom self ->
  forall s count n,
    int s = Ok n ->
    TempoValidator.fixup_loop fuel self (bottom self) s count = Diverge.
Proof.
  intros Htb. induction fuel as [|fuel IH]; intros s count n Hn; [reflexivity|].
  cbn [TempoValidator.fixup_loop]. rewrite Hn. cbn [bind].
  destruct (Z.leb_spec (bottom self) n) as [H1|H1]; cbn [andb].
  - replace (n <=? top self) with false by (symmetry; apply Z.leb_gt; lia).
    replace (n <? bottom self) with false by (symmetry; apply Z.ltb_ge; lia).
    apply (IH _ _ (top self)), int_str.
  - replace (n <? bottom self) with true by (symmetry; apply Z.ltb_lt; lia).
    apply (IH _ _ (bottom self)), int_str.
Qed.

(** X4.  On a validator whose top is below its bottom, the loop of [fixup]
    never ends: for the empty text and for every text [int] reads, no
    amount of fuel gives a result, since the text is replaced by the bottom
    and the top in turn and neither passes the range test. *)
Theorem fixup_empty_range_diverges (self : QIntValidator) (s : string) :
  top self < bottom self ->
  s = "" \/ (exists n, int s = Ok n) ->
  forall fuel, TempoValidator.fixup fuel self s = Diverge.
Proof.
  intros Htb Hs fuel. unfold TempoValidator.fixup, TempoValidator.fixup_counted.
  destruct Hs as [->|(n & Hn)].
  - cbn [String.eqb].
    rewrite (fixup_loop_empty_range self fuel Htb _ _ (bottom self) (int_str _)).
    reflexivity.
  - destruct (s =? "")%string eqn:E.
    + apply String.eqb_eq in E. subst s. discriminate Hn.
    + rewrite (fixup_loop_empty_range self fuel Htb _ _ n Hn). reflexivity.
Qed.

Lemma fixup_empty_range_diverges_witness :
  top (mkValidator 300 20) < bottom (mkValidator 300 20) /\
  TempoValidator.fixup 50 (mkValidator 300 20) "100" = Diverge.
Proof.
  assert (Htb : top (mkValidator 300 20) < bottom (mkValidator 300 20))
    by (cbn; lia).
  split; [exact Htb|].
  apply (fixup_empty_range_diverges (mkValidator 300 20) "100" Htb).
  right. exists 100. reflexivity.
Defined.

(* ================================================================== *)
(** * [__init_window] *)
(* ================================================================== *)

(** X5.  [__init_window] raises [IndexError] when there is no screen.
    Otherwise it gives the window the fixed size 300 by 400 and the title
    MetronomiQ, and centres it on the first screen: the right margin equals
    the left one or exceeds it by one pixel, likewise the bottom and the
    top one, and on a screen of at least 300 by 400 the window lies within
    the screen. *)
Theorem init_window_centred (sw sh : Z) (rest : list (Z * Z)) :
  init_window [] = Raise IndexError /\
  exists f,
    init_window ((sw, sh) :: rest) = Ok f /\
    windowTitle f = "MetronomiQ" /\
    fixedSize f = (300, 400) /\
    geo_width (geometry f) = 300 /\ geo_height (geometry f) = 400 /\
    0 <= (sw - (geo_x (geometry f) + 300)) - geo_x (geometry f) <= 1 /\
    0 <= (sh - (geo_y (geometry f) + 400)) - geo_y (geometry f) <= 1 /\
    (300 <= sw -> 0 <= geo_x (geometry f) /\ geo_x (geometry f) + 300 <= sw) /\
    (400 <= sh -> 0 <= geo_y (geometry f) /\ geo_y (geometry f) + 400 <= sh).
Proof.
  split; [reflexivity|]. eexists. split; [reflexivity|].
  cbn [windowTitle fixedSize geometry geo_x geo_y geo_width geo_height].
  pose proof (Z.div_mod (sw - 300) 2) as Hx.
  pose proof (Z.mod_pos_bound (sw - 300) 2) as Hx'.
  pose proof (Z.div_mod (sh - 400) 2) as Hy.
  pose proof (Z.mod_pos_bound (sh - 400) 2) as Hy'.
  repeat split; try reflexivity; lia.
Qed.

Lemma init_window_centred_witness :
  exists f,
    init_window [(1921, 1080)] = Ok f /\
    geo_x (geometry f) = 810 /\ geo_y (geometry f) = 340 /\
    geo_x (geometry f) + 300 <= 1921.
Proof.
  destruct (init_window_centred 1921 1080 [])
    as (_ & f & H & _ & _ & _ & _ & _ & _ & Hx & _).
  exists f. split; [exact H|].
  assert (E : init_window [(1921, 1080)] =
              Ok (mkFrame (mkGeometry 810 340 300 400) (300, 400) "MetronomiQ"))
    by reflexivity.
  rewrite E in H. apply Ok_inj in H. subst f.
  split; [reflexivity|]. split; [reflexivity|].
  assert (H300 : 300 <= 1921) by lia.
  exact (proj2 (Hx H300)).
Defined.

(* ================================================================== *)
(** * Labels and controls across the handlers *)
(* ================================================================== *)

Tactic Notation "fields" "in" "*" :=
  cbv beta iota zeta delta
    [ set_current_tempo set_playing set_mode set_timer set_tempo_indicator
      set_traditional_marking set_slider_min set_slider set_slider_max
      set_tempo_prompt set_tempo_input set_validator set_start_stop_button
      set_mode_indicator shown get_marking
      current_tempo playing mode timer tempo_indicator traditional_marking
      slider_min slider slider_max tempo_prompt tempo_input validator
      start_stop_button mode_indicator
      setText setEnabled setVisible text enabled visible interactive
      setSliderEnabled setSliderVisible sliderInteractive
      minimum maximum value sliderEnabled sliderVisible
      setUpdateInterval start stop duration loopCount updateInterval state
      bottom top
      Mode_str String.append fst snd bind andb negb ] in *.

Lemma same_controls_refl (s : t) : same_controls s s.
Proof. unfold same_controls. repeat split; reflexivity. Qed.

Lemma same_controls_trans (s1 s2 s3 : t) :
  same_controls s1 s2 -> same_controls s2 s3 -> same_controls s1 s3.
Proof.
  unfold same_controls. intros H1 H2.
  repeat match goal with H : _ /\ _ |- _ => destruct H end.
  repeat split; congruence.
Qed.

Lemma same_controls_shown (s : t) : same_controls s (shown s).
Proof. unfold same_controls. repeat split; reflexivity. Qed.

Lemma tempo_labels_shown (s : t) : tempo_labels_ok (shown s).
Proof. split; reflexivity. Qed.

Lemma same_controls_set_value (p : Z) (s : t) :
  same_controls s (set_slider (fst (setValue p (slider s))) s).
Proof. unfold same_controls. repeat split; reflexivity. Qed.

Lemma same_controls_set_text (r : string) (s : t) :
  same_controls s (set_tempo_input (setText r (tempo_input s)) s).
Proof. unfold same_controls. repeat split; reflexivity. Qed.

(** [__update_tempo] writes the tempo, the slider's value, the line edit's
    text and the two tempo labels, nothing else, and leaves the two labels
    showing the tempo it set. *)
Lemma update_tempo_controls (fuel : nat) :
  forall s s',
    update_tempo fuel s = Ok s' -> same_controls s s' /\ tempo_labels_ok s'.
Proof.
  induction fuel as [|fuel IH]; intros s s' H; [discriminate H|].
  cbn [update_tempo] in H. destruct (mode s) eqn:Hm.
  - destruct (getitem tempi (value (slider s))) as [x| |];
      cbn [bind] in H; try discriminate H.
    apply Ok_inj in H. subst s'. split.
    + unfold same_controls. repeat split; reflexivity.
    + split; reflexivity.
  - cbv zeta in H.
    destruct (if (text (tempo_input s) =? "")%string
              then getitem tempi 0 else int (text (tempo_input s)))
      as [x| |]; cbn [bind] in H; try discriminate H.
    destruct (setValue _ _) as [sl changed] eqn:E.
    assert (Hsl : sl = fst (setValue (Z.of_nat (bisect_left tempi x)) (slider s)))
      by (change (current_tempo (set_current_tempo x s)) with x in E;
          change (slider (set_current_tempo x s)) with (slider s) in E;
          rewrite E; reflexivity).
    assert (Hin : same_controls s (set_slider sl (set_current_tempo x s)))
      by (subst sl; unfold same_controls; repeat split; reflexivity).
    destruct changed.
    + destruct (update_tempo fuel _) as [s1| |] eqn:E1;
        cbn [bind] in H; try discriminate H.
      apply IH in E1. destruct E1 as (Hc1 & _).
      apply Ok_inj in H.
      assert (Es : s' = shown s1) by (subst s'; reflexivity).
      rewrite Es. split; [|apply tempo_labels_shown].
      apply (same_controls_trans _ _ _ Hin).
      apply (same_controls_trans _ _ _ Hc1), same_controls_shown.
    + cbn [bind] in H. apply Ok_inj in H.
      assert (Es : s' = shown (set_slider sl (set_current_tempo x s)))
        by (subst s'; reflexivity).
      rewrite Es. split; [|apply tempo_labels_shown].
      apply (same_controls_trans _ _ _ Hin), same_controls_shown.
Qed.

(** All of [tidy] but the two tempo labels depends only on what
    [same_controls] compares. *)
Lemma tidy_same_controls (s s' : t) :
  same_controls s s' -> tempo_labels_ok s' -> tidy s -> tidy s'.
Proof.
  unfold same_controls, tidy, mode_label_ok, playback_ok, controls_match_mode.
  intros Hs Hl (_ & Hm & Hp & Hc).
  repeat match goal with H : _ /\ _ |- _ => destruct H end.
  split; [exact Hl|].
  repeat match goal with
         | H : ?f s' = ?f s |- _ => rewrite H; clear H
         | H : ?f (?g s') = ?f (?g s) |- _ => rewrite H; clear H
         end.
  repeat split; assumption.
Qed.

Lemma tempo_labels_same_tempo (s s' : t) :
  current_tempo s' = current_tempo s ->
  tempo_indicator s' = tempo_indicator s ->
  traditional_marking s' = traditional_marking s ->
  tempo_labels_ok s -> tempo_labels_ok s'.
Proof.
  unfold tempo_labels_ok, get_marking. intros -> -> -> H. exact H.
Qed.

Lemma tidy_update_tempo (fuel : nat) (s0 s s' : t) :
  tidy s0 -> same_controls s0 s -> update_tempo fuel s = Ok s' -> tidy s'.
Proof.
  intros Ht Hs H. destruct (update_tempo_controls fuel s s' H) as (Hc & Hl).
  exact (tidy_same_controls s0 s' (same_controls_trans _ _ _ Hs Hc) Hl Ht).
Qed.

Lemma switch_mode_tidy (fuel : nat) (s s' : t) :
  tidy s -> switch_mode fuel s = Ok s' -> tidy s'.
Proof.
  intros Ht H. unfold switch_mode in H.
  destruct (update_tempo fuel _) as [s1| |] eqn:E; cbn [bind] in H;
    try discriminate H.
  apply Ok_inj in H.
  destruct (update_tempo_controls fuel _ s1 E) as (Hc & Hl).
  assert (Hl' : tempo_labels_ok s')
    by (subst s'; apply (tempo_labels_same_tempo s1); [reflexivity..|exact Hl]).
  split; [exact Hl'|].
  assert (Hm' : mode_label_ok s') by (subst s'; reflexivity).
  split; [exact Hm'|].
  destruct Ht as (_ & _ & Hp & Hctl).
  unfold same_controls in Hc. unfold playback_ok, controls_match_mode in *.
  repeat match goal with H : _ /\ _ |- _ => destruct H end.
  assert (Hf : playing s' = playing s1 /\ mode s' = mode s1 /\
               timer s' = timer s1 /\ slider s' = slider s1 /\
               slider_min s' = slider_min s1 /\ slider_max s' = slider_max s1 /\
               tempo_prompt s' = tempo_prompt s1 /\
               tempo_input s' = tempo_input s1 /\
               start_stop_button s' = start_stop_button s1)
    by (subst s'; repeat split; reflexivity).
  destruct Hf as (-> & -> & -> & -> & -> & -> & -> & -> & ->).
  repeat match goal with
         | H : ?f s1 = _ |- _ => rewrite H; clear H
         | H : ?f (?g s1) = _ |- _ => rewrite H; clear H
         end.
  clear E Hl Hl' Hm' H. open_window s. fields in *.
  destruct md; repeat match goal with H : _ /\ _ |- _ => destruct H end;
    repeat split; try assumption; try reflexivity.
Qed.

Lemma start_stop_tidy (s s' : t) :
  tidy s -> start_stop_metronome s = Ok s' -> tidy s'.
Proof.
  intros Ht H. unfold start_stop_metronome in H.
  destruct (playing s) eqn:Hp; cbn [negb] in H; cbv zeta in H.
  - apply Ok_inj in H. subst s'.
    unfold tidy, tempo_labels_ok, mode_label_ok, playback_ok,
      controls_match_mode in *.
    open_window s. fields in *. subst pl.
    destruct md; repeat match goal with H : _ /\ _ |- _ => destruct H end;
      repeat split; try assumption; try reflexivity.
  - destruct (floordiv 60000 _) as [i| |]; cbn [bind] in H; try discriminate H.
    apply Ok_inj in H. subst s'.
    unfold tidy, tempo_labels_ok, mode_label_ok, playback_ok,
      controls_match_mode in *.
    open_window s. fields in *. subst pl.
    destruct md; repeat match goal with H : _ /\ _ |- _ => destruct H end;
      repeat split; try assumption; try reflexivity; discriminate.
Qed.

Lemma handle_tidy (fuel : nat) (ev : event) (s s' : t) :
  tidy s -> handle fuel ev s = Ok s' -> tidy s'.
Proof.
  intros Ht H. destruct ev as [|p|txt| |]; cbn [handle] in H.
  - exact (switch_mode_tidy fuel s s' Ht H).
  - destruct (sliderInteractive (slider s)); [|apply Ok_inj in H; subst s'; exact Ht].
    unfold slider_moved in H.
    destruct (setValue p (slider s)) as [sl changed] eqn:E.
    assert (Hsl : sl = fst (setValue p (slider s))) by (rewrite E; reflexivity).
    pose proof (same_controls_set_value p s) as Hs. rewrite <- Hsl in Hs.
    destruct changed.
    + exact (tidy_update_tempo fuel s _ s' Ht Hs H).
    + apply Ok_inj in H. subst s'. apply (tidy_same_controls s _ Hs); [|exact Ht].
      apply (tempo_labels_same_tempo s); [reflexivity..|]. apply Ht.
  - destruct (interactive (tempo_input s)); apply Ok_inj in H; subst s';
      [|exact Ht].
    apply (tidy_same_controls s _ (same_controls_set_text txt s)); [|exact Ht].
    apply (tempo_labels_same_tempo s); [reflexivity..|]. apply Ht.
  - destruct (interactive (tempo_input s));
      [|apply Ok_inj in H; subst s'; exact Ht].
    unfold editing_finished in H. destruct (hasAcceptableInput _ _).
    + exact (tidy_update_tempo fuel s s s' Ht (same_controls_refl s) H).
    + destruct (TempoValidator.fixup _ _ _) as [r| |]; cbn [bind] in H;
        try discriminate H.
      destruct (hasAcceptableInput _ _).
      * exact (tidy_update_tempo fuel s _ s' Ht (same_controls_set_text r s) H).
      * apply Ok_inj in H. subst s'. exact Ht.
  - exact (start_stop_tidy s s' Ht H).
Qed.

Lemma init_tidy (s : t) : init = Ok s -> tidy s.
Proof.
  intros H. vm_compute in H. apply Ok_inj in H. subst s.
  unfold tidy, tempo_labels_ok, mode_label_ok, playback_ok, controls_match_mode.
  cbn [mode playing]. repeat split; reflexivity.
Qed.

Lemma reachable_tidy (s : t) : reachable s -> tidy s.
Proof.
  induction 1 as [s H|fuel ev s s' _ IH H].
  - exact (init_tidy s H).
  - exact (handle_tidy fuel ev s s' IH H).
Qed.

(** X6.  In every window reached from the initial one, the labels are up
    to date: the tempo label shows [str(current_tempo)], the marking label
    shows [__get_marking()], the status bar names the current mode, and the
    button reads Stop while playing and Start otherwise. *)
Theorem labels_up_to_date (s : t) :
  reachable s ->
  text (tempo_indicator s) = str (current_tempo s) /\
  text (traditional_marking s) = get_marking s /\
  text (mode_indicator s) = "Mode: " ++ Mode_str (mode s) /\
  text (start_stop_button s) = (if playing s then "Stop" else "Start").
Proof.
  intros Hr. destruct (reachable_tidy s Hr) as ((H1 & H2) & H3 & (H4 & _) & _).
  repeat split; assumption.
Qed.

Lemma labels_up_to_date_witness :
  reachable switched_while_playing /\
  text (tempo_indicator switched_while_playing) = "208" /\
  text (start_stop_button switched_while_playing) = "Stop".
Proof.
  assert (R : reachable switched_while_playing)
    by (apply (after_reachable
                 [SwitchMode; TextEdited "250"; EditingFinished;
                  StartStopPressed; SwitchMode]); reflexivity).
  split; [exact R|].
  destruct (labels_up_to_date switched_while_playing R) as (H1 & _ & _ & H4).
  split; [exact H1|exact H4].
Defined.

(** X7.  In every reachable window the timer runs exactly while the
    playing flag is set, and it keeps the settings of [__init_metronome]: a
    duration of 600000 ms and loop count 0. *)
Theorem timer_follows_playing (s : t) :
  reachable s ->
  state (timer s) = (if playing s then Running else NotRunning) /\
  duration (timer s) = 600000 /\
  loopCount (timer s) = 0.
Proof.
  intros Hr. destruct (reachable_tidy s Hr) as (_ & _ & (_ & H) & _). exact H.
Qed.

Lemma timer_follows_playing_witness :
  reachable precise_250_playing /\
  playing precise_250_playing = true /\
  state (timer precise_250_playing) = Running.
Proof.
  assert (R : reachable precise_250_playing)
    by (apply (after_reachable
                 [SwitchMode; TextEdited "250"; EditingFinished;
                  StartStopPressed]); reflexivity).
  split; [exact R|]. split; [reflexivity|].
  exact (proj1 (timer_follows_playing precise_250_playing R)).
Defined.

(** X8.  In every reachable window the controls fit the mode.  In Maelzel
    mode the slider and its two end labels are shown, the line edit and its
    prompt are hidden and the line edit is disabled, and the slider is
    enabled whenever the metronome is stopped.  In precise mode the line
    edit is shown and enabled and its prompt shown, and the slider and its
    end labels are hidden, so the slider takes no input.  The prompt label,
    disabled by [__create_controls], is never enabled again, and the end
    labels read 40 and 208. *)
Theorem controls_fit_mode (s : t) :
  reachable s ->
  (mode s = maelzel ->
   sliderVisible (slider s) = true /\
   visible (slider_min s) = true /\ visible (slider_max s) = true /\
   interactive (tempo_input s) = false /\
   visible (tempo_input s) = false /\ enabled (tempo_input s) = false /\
   visible (tempo_prompt s) = false /\
   (playing s = false -> sliderInteractive (slider s) = true)) /\
  (mode s = precise ->
   interactive (tempo_input s) = true /\ visible (tempo_prompt s) = true /\
   sliderInteractive (slider s) = false /\
   visible (slider_min s) = false /\ visible (slider_max s) = false) /\
  enabled (tempo_prompt s) = false /\
  text (slider_min s) = "40" /\ text (slider_max s) = "208".
Proof.
  intros Hr. destruct (reachable_tidy s Hr) as (_ & _ & _ & Hc & Hrest).
  unfold interactive, sliderInteractive.
  split; [|split; [|exact Hrest]]; intros Hm; rewrite Hm in Hc;
    destruct Hc as (H1 & H2 & H3 & H4 & H5 & H6 & H7);
    rewrite ?H1, ?H4, ?H5, ?andb_false_r; repeat split; try assumption.
  intros Hp. rewrite (H7 Hp). reflexivity.
Qed.

Lemma controls_fit_mode_witness :
  reachable precise_250_playing /\
  mode precise_250_playing = precise /\
  interactive (tempo_input precise_250_playing) = true /\
  sliderInteractive (slider precise_250_playing) = false.
Proof.
  assert (R : reachable precise_250_playing)
    by (apply (after_reachable
                 [SwitchMode; TextEdited "250"; EditingFinished;
                  StartStopPressed]); reflexivity).
  split; [exact R|]. split; [reflexivity|].
  destruct (controls_fit_mode precise_250_playing R) as (_ & H & _).
  destruct (H eq_refl) as (H1 & _ & H3 & _). split; [exact H1|exact H3].
Defined.



(** X10.  Starting the metronome from a reachable stopped window never
    raises, and the update interval it sets lies between 200 and 3000 ms;
    in Maelzel mode it lies between 288 and 1500 ms. *)
Theorem start_interval_bounds (s : t) :
  reachable s ->
  playing s = false ->
  exists s',
    start_stop_metronome s = Ok s' /\
    200 <= updateInterval (timer s') <= 3000 /\
    (mode s = maelzel -> 288 <= updateInterval (timer s') <= 1500).
Proof.
  intros Hr Hp. pose proof (reachable_consistent s Hr) as Hc.
  destruct (consistent_tempo_range s Hc) as (Hrange & Hmael).
  eexists. split; [apply (start_metronome s Hp); lia|].
  cbn [timer updateInterval]. split.
  - split.
    + apply Z.div_le_lower_bound; lia.
    + apply Z.div_le_upper_bound; lia.
  - intros Hm. destruct (Hmael Hm) as (_ & Hb). split.
    + apply Z.div_le_lower_bound; lia.
    + apply Z.div_le_upper_bound; lia.
Qed.

Lemma start_interval_bounds_witness :
  reachable initial_window /\
  playing initial_window = false /\
  exists s',
    start_stop_metronome initial_window = Ok s' /\
    200 <= updateInterval (timer s') <= 3000.
Proof.
  assert (R : reachable initial_window) by (apply reachable_init; reflexivity).
  split; [exact R|]. split; [reflexivity|].
  destruct (start_interval_bounds initial_window R eq_refl) as (s' & H & Hb & _).
  exists s'. split; [exact H|exact Hb].
Defined.

(** X11.  In every reachable window the slider stays in step with the
    tempo: its range is 0 .. 38, its value is the position
    [bisect_left(tempi, current_tempo)] bounded to that range, and in
    Maelzel mode the table entry under it is the current tempo and the
    hidden line edit holds the tempo's decimal text. *)
Theorem slider_tracks_tempo (s : t) :
  reachable s ->
  minimum (slider s) = 0 /\ maximum (slider s) = 38 /\
  0 <= value (slider s) <= 38 /\
  value (slider s) = Z.min 38 (Z.of_nat (bisect_left tempi (current_tempo s))) /\
  (mode s = maelzel ->
   getitem tempi (value (slider s)) = Ok (current_tempo s) /\
   text (tempo_input s) = str (current_tempo s)).
Proof.
  intros Hr. pose proof (reachable_consistent s Hr) as Hc.
  pose proof Hc as (Hmin & Hmax & Hv & _ & Hmode).
  split; [exact Hmin|]. split; [exact Hmax|]. split; [exact Hv|]. split.
  - rewrite <- (slider_position_eq (slider s) Hmin Hmax).
    destruct (mode s) eqn:Hm.
    + symmetry. exact (proj2 (consistent_maelzel s Hc Hm)).
    + tauto.
  - intros Hm. rewrite Hm in Hmode. tauto.
Qed.

Lemma slider_tracks_tempo_witness :
  reachable precise_250_playing /\
  current_tempo precise_250_playing = 250 /\
  value (slider precise_250_playing) = 38.
Proof.
  assert (R : reachable precise_250_playing)
    by (apply (after_reachable
                 [SwitchMode; TextEdited "250"; EditingFinished;
                  StartStopPressed]); reflexivity).
  split; [exact R|]. split; [reflexivity|].
  destruct (slider_tracks_tempo precise_250_playing R) as (_ & _ & _ & H & _).
  rewrite H. reflexivity.
Defined.

(* ================================================================== *)
(** * What an event does to a reachable window *)
(* ================================================================== *)

(** The precise branch on a text that reads as an integer of the range. *)
Lemma update_tempo_in_range (fuel : nat) (s : t) (n : Z) :
  mode s = precise ->
  int (text (tempo_input s)) = Ok n ->
  exists s',
    update_tempo (S (S fuel)) s = Ok s' /\
    current_tempo s' = n /\ mode s' = precise /\
    text (tempo_input s') = text (tempo_input s).
Proof.
  intros Hm Hn. eexists. split.
  - apply (update_tempo_precise fuel s n Hm).
    destruct (text (tempo_input s) =? "")%string eqn:E; [|exact Hn].
    apply String.eqb_eq in E. rewrite E in Hn. discriminate Hn.
  - split; [reflexivity|]. split; [exact Hm|reflexivity].
Qed.

Lemma editing_finished_result (fuel : nat) (s : t) :
  validator s = mkValidator 20 300 ->
  mode s = precise ->
  (forall n,
      int (text (tempo_input s)) = Ok n ->
      exists s',
        editing_finished (S (S fuel)) s = Ok s' /\
        current_tempo s' = Z.max 20 (Z.min 300 n) /\
        mode s' = precise /\
        text (tempo_input s') =
        (if n <? 20 then "20" else if 300 <? n then "300"
         else text (tempo_input s))) /\
  (text (tempo_input s) = "" ->
   exists s',
     editing_finished (S (S fuel)) s = Ok s' /\
     current_tempo s' = 20 /\ mode s' = precise /\
     text (tempo_input s') = "20") /\
  (text (tempo_input s) <> "" ->
   int (text (tempo_input s)) = Raise ValueError ->
   editing_finished (S (S fuel)) s = Raise ValueError).
Proof.
  intros Hval Hm.
  assert (Hbt : bottom (mkValidator 20 300) <= top (mkValidator 20 300))
    by (cbn; lia).
  assert (Hfix : forall r b,
             int r = Ok b -> 20 <= b <= 300 ->
             exists s',
               update_tempo (S (S fuel))
                 (set_tempo_input (setText r (tempo_input s)) s) = Ok s' /\
               current_tempo s' = b /\ mode s' = precise /\
               text (tempo_input s') = r).
  { intros r b Hr _.
    exact (update_tempo_in_range fuel
             (set_tempo_input (setText r (tempo_input s)) s) b Hm Hr). }
  unfold editing_finished, hasAcceptableInput. rewrite Hval.
  cbn [bottom top]. split; [|split].
  - intros n Hn. rewrite Hn.
    destruct (Z.leb_spec 20 n) as [Hlo|Hlo]; cbn [andb].
    + destruct (Z.leb_spec n 300) as [Hhi|Hhi].
      * destruct (update_tempo_in_range fuel s n Hm Hn) as (s' & H & Ht & Hm' & Htx).
        exists s'. split; [exact H|]. split; [lia|]. split; [exact Hm'|].
        replace (n <? 20) with false by (symmetry; apply Z.ltb_ge; lia).
        replace (300 <? n) with false by (symmetry; apply Z.ltb_ge; lia).
        exact Htx.
      * rewrite (fixup_parsed (mkValidator 20 300) Hbt fuel _ n Hn).
        cbn [bottom top bind].
        replace (n <? 20) with false by (symmetry; apply Z.ltb_ge; lia).
        replace (300 <? n) with true by (symmetry; apply Z.ltb_lt; lia).
        rewrite int_str. cbn [andb Z.leb Z.compare Pos.compare Pos.compare_cont].
        destruct (Hfix (str 300) 300 (int_str 300)) as (s' & H & Ht & Hm' & Htx);
          [lia|].
        exists s'. split; [exact H|]. split; [lia|]. split; [exact Hm'|exact Htx].
    + rewrite (fixup_parsed (mkValidator 20 300) Hbt fuel _ n Hn).
      cbn [bottom top bind].
      replace (n <? 20) with true by (symmetry; apply Z.ltb_lt; lia).
      rewrite int_str. cbn [andb Z.leb Z.compare Pos.compare Pos.compare_cont].
      destruct (Hfix (str 20) 20 (int_str 20)) as (s' & H & Ht & Hm' & Htx);
        [lia|].
      exists s'. split; [exact H|]. split; [lia|]. split; [exact Hm'|exact Htx].
  - intros He. rewrite He.
    change (int "") with (@Raise Z ValueError). cbv iota.
    rewrite (fixup_empty (mkValidator 20 300) Hbt (S fuel)).
    cbn [bottom bind]. rewrite int_str.
    cbn [andb Z.leb Z.compare Pos.compare Pos.compare_cont].
    destruct (Hfix (str 20) 20 (int_str 20)) as (s' & H & Ht & Hm' & Htx);
      [lia|].
    exists s'. split; [exact H|]. split; [exact Ht|]. split; [exact Hm'|exact Htx].
  - intros Hne Hr. rewrite Hr.
    unfold TempoValidator.fixup.
    rewrite (fixup_counted_unparsed (S fuel) _ _ Hne Hr). reflexivity.
Qed.

(** C7, as the claim has it, fails: committing the empty line edit of
    [precise_empty_text], a reachable precise-mode window, sets the tempo to
    20, since [fixup] has made the text 20 before [__update_tempo] reads
    it. *)
Lemma empty_commit_sets_20 :
  ~ (forall s s',
        reachable s -> mode s = precise -> text (tempo_input s) = "" ->
        handle 2 EditingFinished s = Ok s' ->
        current_tempo s' = 40).
Proof.
  intros H.
  assert (R : reachable precise_empty_text)
    by (apply (after_reachable [SwitchMode; TextEdited EmptyString]);
        reflexivity).
  assert (E : handle 2 EditingFinished precise_empty_text =
              Ok (window_of (handle 2 EditingFinished precise_empty_text)))
    by (vm_compute; reflexivity).
  specialize (H precise_empty_text _ R eq_refl eq_refl E).
  vm_compute in H. discriminate H.
Qed.

(** C7, amended.  On a reachable precise-mode window with an empty line
    edit, [__update_tempo] run as it stands sets the tempo to the first
    table entry, 40.  Committing the line edit does not get there: the
    line edit calls [fixup] first, which makes the text 20, the validator's
    bottom, and the commit sets the tempo to 20. *)
Theorem empty_text_commit (fuel : nat) (s : t) :
  reachable s ->
  mode s = precise ->
  text (tempo_input s) = "" ->
  (exists s',
      update_tempo (S (S fuel)) s = Ok s' /\
      getitem tempi 0 = Ok (current_tempo s') /\
      current_tempo s' = 40) /\
  (exists s',
      handle (S (S fuel)) EditingFinished s = Ok s' /\
      TempoValidator.fixup (S (S fuel)) (validator s) "" =
      Ok (text (tempo_input s')) /\
      text (tempo_input s') = "20" /\
      current_tempo s' = bottom (validator s) /\
      current_tempo s' = 20).
Proof.
  intros Hr Hm He. pose proof (reachable_consistent s Hr) as Hc.
  assert (Hi : interactive (tempo_input s) = true)
    by (destruct Hc as (_ & _ & _ & _ & Hmode); rewrite Hm in Hmode; tauto).
  assert (Hval : validator s = mkValidator 20 300) by (destruct Hc; tauto).
  split.
  - eexists.
    split; [apply (update_tempo_precise fuel s 40 Hm); rewrite He; reflexivity|].
    split; reflexivity.
  - destruct (editing_finished_result fuel s Hval Hm) as (_ & H & _).
    destruct (H He) as (s' & Hs' & Ht & _ & Htx).
    exists s'. cbn [handle]. rewrite Hi. split; [exact Hs'|].
    rewrite Hval, Htx, Ht. repeat split; reflexivity.
Qed.

Lemma empty_text_commit_witness :
  reachable precise_empty_text /\
  mode precise_empty_text = precise /\
  text (tempo_input precise_empty_text) = "" /\
  exists s',
    handle 2 EditingFinished precise_empty_text = Ok s' /\
    current_tempo s' = 20.
Proof.
  assert (R : reachable precise_empty_text)
    by (apply (after_reachable [SwitchMode; TextEdited EmptyString]);
        reflexivity).
  split; [exact R|]. split; [reflexivity|]. split; [reflexivity|].
  destruct (empty_text_commit 0 precise_empty_text R eq_refl eq_refl)
    as (_ & s' & H & _ & _ & _ & Ht).
  exists s'. split; [exact H|exact Ht].
Defined.

(** X12.  Typing the decimal numeral of an integer [n] of 0 .. 300 into
    the line edit of a reachable precise-mode window and committing it sets
    the tempo to [n], or to 20 when [n] is below 20, and leaves the line
    edit showing the tempo set.  Committing the line edit emptied sets the
    tempo to 20 and the text to 20. *)
Theorem commit_typed_text (fuel : nat) (s : t) (n : Z) :
  reachable s ->
  mode s = precise ->
  0 <= n <= 300 ->
  (exists s',
      run (S (S fuel)) [TextEdited (str n); EditingFinished] s = Ok s' /\
      current_tempo s' = Z.max 20 n /\
      mode s' = precise /\
      text (tempo_input s') = str (Z.max 20 n)) /\
  (exists s',
      run (S (S fuel)) [TextEdited ""; EditingFinished] s = Ok s' /\
      current_tempo s' = 20 /\
      mode s' = precise /\
      text (tempo_input s') = "20").
Proof.
  intros Hr Hm Hn. pose proof (reachable_consistent s Hr) as Hc.
  assert (Hi : interactive (tempo_input s) = true)
    by (destruct Hc as (_ & _ & _ & _ & Hmode); rewrite Hm in Hmode; tauto).
  assert (Hval : validator s = mkValidator 20 300) by (destruct Hc; tauto).
  assert (Hrun : forall txt,
             run (S (S fuel)) [TextEdited txt; EditingFinished] s =
             editing_finished (S (S fuel))
               (set_tempo_input (setText txt (tempo_input s)) s)).
  { intros txt. cbn [run handle]. rewrite Hi. cbn [bind].
    change (interactive
              (tempo_input (set_tempo_input (setText txt (tempo_input s)) s)))
      with (interactive (tempo_input s)).
    rewrite Hi. destruct (editing_finished (S (S fuel)) _); reflexivity. }
  split.
  - rewrite Hrun.
    destruct (editing_finished_result fuel
                (set_tempo_input (setText (str n) (tempo_input s)) s) Hval Hm)
      as (H & _).
    destruct (H n (int_str n)) as (s' & Hs' & Ht & Hm' & Htx).
    exists s'. split; [exact Hs'|]. split; [lia|]. split; [exact Hm'|].
    rewrite Htx. change (text (tempo_input (set_tempo_input
                   (setText (str n) (tempo_input s)) s))) with (str n).
    replace (300 <? n) with false by (symmetry; apply Z.ltb_ge; lia).
    destruct (Z.ltb_spec n 20) as [Hlt|Hge].
    + replace (Z.max 20 n) with 20 by lia. reflexivity.
    + replace (Z.max 20 n) with n by lia. reflexivity.
  - rewrite Hrun.
    destruct (editing_finished_result fuel
                (set_tempo_input (setText "" (tempo_input s)) s) Hval Hm)
      as (_ & H & _).
    exact (H eq_refl).
Qed.

Lemma commit_typed_text_witness :
  reachable precise_empty_text /\
  mode precise_empty_text = precise /\
  0 <= 7 <= 300 /\
  exists s',
    run 2 [TextEdited "7"; EditingFinished] precise_empty_text = Ok s' /\
    current_tempo s' = 20 /\ text (tempo_input s') = "20".
Proof.
  assert (R : reachable precise_empty_text)
    by (apply (after_reachable [SwitchMode; TextEdited EmptyString]);
        reflexivity).
  assert (H7 : 0 <= 7 <= 300) by lia.
  split; [exact R|]. split; [reflexivity|]. split; [exact H7|].
  destruct (commit_typed_text 0 precise_empty_text 7 R eq_refl H7)
    as ((s' & Hrun & Ht & _ & Htx) & _).
  exists s'. split; [exact Hrun|]. split; [exact Ht|exact Htx].
Defined.

Lemma slider_moved_result (fuel : nat) (p : Z) (s : t) :
  consistent s -> sliderInteractive (slider s) = true ->
  exists s',
    slider_moved (S fuel) p s = Ok s' /\
    mode s' = maelzel /\
    value (slider s') = Z.max 0 (Z.min 38 p) /\
    getitem tempi (Z.max 0 (Z.min 38 p)) = Ok (current_tempo s').
Proof.
  intros Hc Hi.
  assert (Hm : mode s = maelzel).
  { destruct Hc as (_ & _ & _ & _ & Hmode). destruct (mode s); [reflexivity|].
    destruct Hmode as (_ & _ & Hvis & _). unfold sliderInteractive in Hi.
    rewrite Hvis, andb_false_r in Hi. discriminate Hi. }
  destruct Hc as (Hmin & Hmax & Hv & _ & Hmode). rewrite Hm in Hmode.
  destruct Hmode as (Hget & _).
  assert (Hb : bound (slider s) p = Z.max 0 (Z.min 38 p))
    by (unfold bound; rewrite Hmin, Hmax; reflexivity).
  unfold slider_moved.
  destruct (setValue p (slider s)) as [sl changed] eqn:E.
  assert (Hsl : sl = fst (setValue p (slider s))) by (rewrite E; reflexivity).
  assert (Hch : changed = snd (setValue p (slider s))) by (rewrite E; reflexivity).
  rewrite setValue_snd in Hch.
  assert (Hval : value sl = Z.max 0 (Z.min 38 p))
    by (rewrite Hsl, setValue_value; exact Hb).
  destruct changed.
  - eexists. split.
    + apply update_tempo_maelzel; [exact Hm|].
      change (value (slider (set_slider sl s))) with (value sl). lia.
    + split; [exact Hm|]. split; [exact Hval|].
      change (getitem tempi (Z.max 0 (Z.min 38 p)) =
              Ok (nth (Z.to_nat (value sl)) tempi 0)).
      rewrite Hval. apply getitem_nth. rewrite tempi_length. lia.
  - symmetry in Hch. apply negb_false_iff, Z.eqb_eq in Hch.
    eexists. split; [reflexivity|]. split; [exact Hm|]. split; [exact Hval|].
    rewrite <- Hb, Hch. exact Hget.
Qed.

(** X13.  A slider move on a reachable window whose slider takes input
    never raises, wherever the slider is asked to go: the position is
    bounded to 0 .. 38 and the tempo becomes the table entry there. *)
Theorem slider_move_sets_entry (fuel : nat) (p : Z) (s : t) :
  reachable s ->
  sliderInteractive (slider s) = true ->
  exists s',
    handle (S fuel) (SliderMoved p) s = Ok s' /\
    mode s' = maelzel /\
    value (slider s') = Z.max 0 (Z.min 38 p) /\
    getitem tempi (Z.max 0 (Z.min 38 p)) = Ok (current_tempo s').
Proof.
  intros Hr Hi. cbn [handle]. rewrite Hi.
  exact (slider_moved_result fuel p s (reachable_consistent s Hr) Hi).
Qed.

Lemma slider_move_sets_entry_witness :
  reachable initial_window /\
  sliderInteractive (slider initial_window) = true /\
  exists s',
    handle 1 (SliderMoved 1000) initial_window = Ok s' /\
    current_tempo s' = 208.
Proof.
  assert (R : reachable initial_window) by (apply reachable_init; reflexivity).
  split; [exact R|]. split; [reflexivity|].
  destruct (slider_move_sets_entry 0 1000 initial_window R eq_refl)
    as (s' & H & _ & _ & Hg).
  exists s'. split; [exact H|].
  change (getitem tempi (Z.max 0 (Z.min 38 1000))) with (Ok 208) in Hg.
  apply Ok_inj in Hg. symmetry. exact Hg.
Defined.

(** X14.  No event makes a handler of a reachable window raise
    [IndexError] or [ZeroDivisionError] or run without end.  The one
    exception that can occur is the [ValueError] of [fixup], on committing
    a line edit whose text is not empty and is not read by [int]. *)
Theorem handlers_safe (fuel : nat) (ev : event) (s : t) :
  reachable s ->
  (exists s', handle (S (S fuel)) ev s = Ok s') \/
  (ev = EditingFinished /\
   mode s = precise /\
   text (tempo_input s) <> "" /\
   int (text (tempo_input s)) = Raise ValueError /\
   handle (S (S fuel)) ev s = Raise ValueError).
Proof.
  intros Hr. pose proof (reachable_consistent s Hr) as Hc.
  destruct (consistent_tempo_range s Hc) as (Hrange & _).
  destruct ev as [|p|txt| |]; cbn [handle].
  - left. destruct (mode s) eqn:Hm.
    + eexists. exact (switch_mode_maelzel fuel s Hc Hm).
    + eexists. apply (switch_mode_precise (S fuel) s Hm). destruct Hc; tauto.
  - left. destruct (sliderInteractive (slider s)) eqn:Hi; [|eexists; reflexivity].
    destruct (slider_moved_result (S fuel) p s Hc Hi) as (s' & H & _).
    exists s'. exact H.
  - left. destruct (interactive (tempo_input s)); eexists; reflexivity.
  - destruct (interactive (tempo_input s)) eqn:Hi; [|left; eexists; reflexivity].
    assert (Hm : mode s = precise).
    { destruct Hc as (_ & _ & _ & _ & Hmode). destruct (mode s); [|reflexivity].
      destruct Hmode as (_ & _ & Hint). congruence. }
    assert (Hval : validator s = mkValidator 20 300) by (destruct Hc; tauto).
    destruct (editing_finished_result fuel s Hval Hm) as (H1 & H2 & H3).
    destruct (int_cases (text (tempo_input s))) as [(n & Hn)|Hraise].
    + left. destruct (H1 n Hn) as (s' & H & _). exists s'. exact H.
    + destruct (string_dec (text (tempo_input s)) "") as [He|Hne].
      * left. destruct (H2 He) as (s' & H & _). exists s'. exact H.
      * right. repeat split; try assumption. exact (H3 Hne Hraise).
  - left. destruct (playing s) eqn:Hp.
    + eexists. exact (stop_metronome s Hp).
    + eexists. apply (start_metronome s Hp). lia.
Qed.

Lemma handlers_safe_witness :
  reachable precise_250_playing /\
  exists s', handle 2 SwitchMode precise_250_playing = Ok s'.
Proof.
  assert (R : reachable precise_250_playing)
    by (apply (after_reachable
                 [SwitchMode; TextEdited "250"; EditingFinished;
                  StartStopPressed]); reflexivity).
  split; [exact R|].
  destruct (handlers_safe 0 SwitchMode precise_250_playing R)
    as [H|(Hev & _)]; [exact H|discriminate Hev].
Defined.

(** X15.  The slot [__update_tempo] re-enters itself through
    [slider.valueChanged] at most once: on any window whatever, two levels
    of nesting give the same outcome as any larger number and that outcome
    is a result or an exception.  One level is not always enough: on
    [precise_typed_100], a reachable window, the [setValue] of the precise
    branch moves the slider and the slot runs again. *)
Theorem update_tempo_nests_once (fuel : nat) (s : t) :
  update_tempo (S (S fuel)) s = update_tempo 2 s /\
  update_tempo 2 s <> Diverge /\
  reachable precise_typed_100 /\
  update_tempo 1 precise_typed_100 = Diverge.
Proof.
  assert (Hgen : forall f,
             update_tempo (S (S f)) s = update_tempo 2 s /\
             update_tempo (S (S f)) s <> Diverge).
  { intros f. destruct (mode s) eqn:Hm.
    - cbn [update_tempo]. rewrite Hm.
      destruct (getitem_range tempi (value (slider s))) as [(_ & E)|(_ & E)];
        rewrite E; cbn [bind]; cbv zeta; split; try reflexivity; discriminate.
    - destruct (if (text (tempo_input s) =? "")%string
                then getitem tempi 0 else int (text (tempo_input s)))
        as [x| |] eqn:Hx.
      + rewrite (update_tempo_precise f s x Hm Hx).
        rewrite (update_tempo_precise 0 s x Hm Hx).
        split; [reflexivity|discriminate].
      + cbn [update_tempo]. rewrite Hm. cbv zeta. rewrite Hx. cbn [bind].
        split; [reflexivity|discriminate].
      + exfalso. destruct (text (tempo_input s) =? "")%string.
        * change (getitem tempi 0) with (Ok 40) in Hx. discriminate Hx.
        * destruct (int_cases (text (tempo_input s))) as [(n & Hn)|Hn];
            rewrite Hn in Hx; discriminate Hx. }
  split; [exact (proj1 (Hgen fuel))|]. split; [exact (proj2 (Hgen 0%nat))|].
  split.
  - apply (after_reachable [SwitchMode; TextEdited "100"]). reflexivity.
  - vm_compute. reflexivity.
Qed.
